(** * tree_menu: the [draw_menu] template tag and its helpers

    A shallow embedding of [tree_menu/templatetags/tree_menu_tags.py]
    together with the parts of [tree_menu/models.py] and
    [treeproject/urls.py] it depends on.

    - Python [str] is [string]; [int] is [Z]; [None]-able values are [option].
    - Python truthiness ([if x], [not x], [x or y], [while x]) is the class
      [Truthy].
    - [dict] is [gmap], [set] is [gset], [defaultdict(list)] is a [gmap] to
      lists read with the default [[]].
    - The ORM is a pair of tables with a query log; evaluating a queryset
      appends one entry to the log.
    - The [while] loop that climbs the parent chain is run with fuel; a run
      that no amount of fuel completes is a run that never ends. *)

From Stdlib Require Import ZArith Ascii String.
From stdpp Require Import gmap strings list sorting.

Local Open Scope Z_scope.

(** ** Python truthiness *)

Class Truthy (A : Type) := truthy : A → bool.

#[export] Instance str_truthy : Truthy string :=
  λ s, match s with EmptyString => false | String _ _ => true end.
#[export] Instance int_truthy : Truthy Z := λ n, negb (n =? 0).
#[export] Instance list_truthy {A} : Truthy (list A) :=
  λ l, match l with [] => false | _ :: _ => true end.
#[export] Instance option_truthy {A} `{Truthy A} : Truthy (option A) :=
  λ o, match o with None => false | Some a => truthy a end.

(** ** [str] methods used by the tag *)

Module Str.

(** [s.startswith(p)] *)
Fixpoint startswith (s p : string) {struct p} : bool :=
  match p with
  | EmptyString => true
  | String c p' =>
      match s with
      | EmptyString => false
      | String d s' => Ascii.eqb d c && startswith s' p'
      end
  end.

(** [s.startswith((p1, p2, ...))] *)
Definition startswith_any (s : string) (ps : list string) : bool :=
  existsb (startswith s) ps.

(** [s.endswith(suf)]: some tail of [s] is [suf]. *)
Fixpoint endswith (s suf : string) : bool :=
  if String.eqb s suf then true
  else match s with
       | EmptyString => false
       | String _ s' => endswith s' suf
       end.

(** [len(s)] *)
Definition len (s : string) : nat := String.length s.

End Str.

(** ** Exceptions and outcomes of a run *)

Inductive exn := KeyError (key : Z).

Inductive outcome (A : Type) :=
| Returns (a : A)
| Raises (e : exn)
| OutOfFuel.
Arguments Returns {A} a.
Arguments Raises {A} e.
Arguments OutOfFuel {A}.

#[export] Instance outcome_ret : MRet outcome := λ A a, Returns a.
#[export] Instance outcome_bind : MBind outcome := λ A B k m,
  match m with
  | Returns a => k a
  | Raises e => Raises e
  | OutOfFuel => OutOfFuel
  end.

(** The run ended with a value. *)
Definition returned {A} (o : outcome A) : bool :=
  match o with Returns _ => true | _ => false end.

(** [[f(x) for x in l]] where [f] may raise. *)
Fixpoint omap_list {A B} (f : A → outcome B) (l : list A) : outcome (list B) :=
  match l with
  | [] => Returns []
  | x :: l' => y ← f x; ys ← omap_list f l'; mret (y :: ys)
  end.

(** [d[k]] on a dict with integer keys. *)
Definition getitem {V} (d : gmap Z V) (k : Z) : outcome V :=
  match d !! k with
  | Some v => Returns v
  | None => Raises (KeyError k)
  end.

(** ** Rows and menu items *)

(** A row of [.values("id", "parent_id", "title", "url", "named_url",
    "sort_order")]. *)
Record row := Row {
  id : Z;
  parent_id : option Z;
  title : string;
  url : option string;
  named_url : option string;
  sort_order : Z;
}.

(** The same dict after the tag has stored ["resolved_url"] and ["norm_url"]
    in it. *)
Record item := Item {
  fields :> row;
  resolved_url : string;
  norm_url : string;
}.

(** ** tree_menu/models.py *)

Module Models.

Record Menu := {
  menu_pk : Z;
  name : string;
  menu_title : string;
}.

Record MenuItem := {
  pk : Z;
  menu_id : Z;
  parent : option Z;
  item_title : string;
  item_url : string;
  item_named_url : string;
  item_sort_order : Z;
}.

(** The two tables. *)
Record tables := {
  menus : list Menu;
  menu_items : list MenuItem;
}.

(** [.values("id", "parent_id", "title", "url", "named_url", "sort_order")] *)
Definition values (mi : MenuItem) : row :=
  {| id := pk mi;
     parent_id := parent mi;
     title := item_title mi;
     url := Some (item_url mi);
     named_url := Some (item_named_url mi);
     sort_order := item_sort_order mi |}.

(** [.filter(menu__name=menu_name)]: the join of the item with its menu. *)
Definition menu__name (t : tables) (menu_name : string) (mi : MenuItem) : bool :=
  existsb (λ m, (menu_pk m =? menu_id mi) && String.eqb (name m) menu_name)
          (menus t).

(** [.order_by("sort_order", "id")]: ascending, lexicographic. *)
Definition key_le (r1 r2 : row) : Prop :=
  sort_order r1 < sort_order r2
  ∨ (sort_order r1 = sort_order r2 ∧ id r1 ≤ id r2).

#[export] Instance key_le_dec : RelDecision key_le.
Proof. intros r1 r2. unfold key_le. apply _. Defined.

(** The queryset of [draw_menu], evaluated against the tables. *)
Definition menu_item_rows (t : tables) (menu_name : string) : list row :=
  merge_sort key_le
    (values <$> filter (λ mi, menu__name t menu_name mi = true) (menu_items t)).

(** A database connection: the tables and the log of executed queries. *)
Record connection := {
  data : tables;
  queries : list string;
}.

(** Code that talks to the database. *)
Definition DB (A : Type) : Type := connection → A * connection.

#[export] Instance DB_ret : MRet DB := λ A a c, (a, c).
#[export] Instance DB_bind : MBind DB := λ A B k m c,
  let '(a, c') := m c in k a c'.

(** [list(MenuItem.objects.filter(menu__name=...).values(...).order_by(...))]:
    one query is executed and logged. *)
Definition fetch_menu_items (menu_name : string) : DB (list row) :=
  λ c, (menu_item_rows (data c) menu_name,
        {| data := data c; queries := queries c ++ [menu_name] |}).

End Models.

(** ** treeproject/urls.py *)

Module Urls.

(** The named routes of [urlpatterns] with the path each one reverses to. *)
Definition urlpatterns : list (string * string) :=
  [ ("index", "/");
    ("about", "/about/");
    ("blog", "/blog/");
    ("blog_categories", "/blog/categories/");
    ("blog_category_1", "/blog/categories/1/");
    ("blog_category_2", "/blog/categories/2/");
    ("blog_category_3", "/blog/categories/3/") ].

(** [django.urls.reverse] on these routes; [None] is [NoReverseMatch]. The
    routes of [admin.site.urls], which live in the namespace [admin], are
    left out. *)
Definition reverse (viewname : string) : option string :=
  snd <$> find (λ p, String.eqb (fst p) viewname) urlpatterns.

End Urls.

(** ** tree_menu/templatetags/tree_menu_tags.py *)

Import Str Models.

(** The request object as far as the tag reads it. *)
Record HttpRequest := { path : string }.

(** The template context as far as the tag reads it: [context.get("request")]. *)
Record Context := { request : option HttpRequest }.

(** What [draw_menu] hands to the template. *)
Record menu_context := {
  ctx_menu_name : string;
  items_by_id : gmap Z item;
  root_items : list item;
  children_map : gmap Z (list Z);
  active_id : option Z;
  expanded_ids : gset Z;
  ctx_request : option HttpRequest;
}.

(** What [draw_menu] returns: the empty string, or the rendering of a template
    on a context. The template engine is outside the tag. *)
Inductive response :=
| Blank
| render_to_string (template_name : string) (ctx : menu_context).

(** The prefixes of line 27: a scheme or a fragment marker. *)
Definition untouched : list string := ["http://"; "https://"; "#"].

Definition _normalize_path (path : string) : string :=
  if negb (truthy path) then "/"
  else if startswith_any path untouched then path
  else
    let path := if negb (startswith path "/") then "/" +:+ path else path in
    let path :=
      if negb (String.eqb path "/") && negb (endswith path "/")
      then path +:+ "/" else path in
    path.

(** [getattr(request, "path", "/")] *)
Definition getattr_path (request : option HttpRequest) : string :=
  match request with
  | Some r => path r
  | None => "/"
  end.

(** [o] when it is truthy: the value a guarded [if o:] or [while o:] body sees. *)
Definition when_truthy (o : option Z) : option Z :=
  if truthy o then o else None.

(** Line 81: [{it["id"]: it for it in items}]; a later item replaces an
    earlier one with the same id. *)
Definition index_by_id (items : list item) : gmap Z item :=
  foldl (λ (d : gmap Z item) (it : item), <[id it := it]> d) ∅ items.

(** One iteration of lines 84-87: file the id under its parent or as a root. *)
Definition link (st : gmap Z (list Z) * list Z) (it : item)
  : gmap Z (list Z) * list Z :=
  let '(children, roots) := st in
  match when_truthy (parent_id it) with
  | Some p => (<[p := children !!! p ++ [id it]]> children, roots)
  | None => (children, roots ++ [id it])
  end.

(** One iteration of lines 92-105. The state is [(active_id, max_len)]. *)
Definition scan (current_path : string) (st : option Z * nat) (it : item)
  : option Z * nat :=
  let '(active_id, max_len) := st in
  if negb (startswith (norm_url it) "/") then st
  else
    let norm_url := norm_url it in
    if String.eqb norm_url "/" && negb (String.eqb current_path "/") then st
    else if startswith current_path norm_url then
      let current_len := len norm_url in
      if (max_len <? current_len)%nat then (Some (id it), current_len) else st
    else st.

(** Lines 111-113: [while cur: expanded.add(cur); cur = by_id[cur]["parent_id"]];
    each iteration costs one unit of fuel. *)
Fixpoint climb (fuel : nat) (by_id : gmap Z item) (cur : option Z)
    (expanded : gset Z) : outcome (gset Z) :=
  match when_truthy cur with
  | None => Returns expanded
  | Some c =>
      match fuel with
      | O => OutOfFuel
      | S fuel' =>
          getitem by_id c ≫= λ it : item,
            climb fuel' by_id (parent_id it) (expanded ∪ {[c]})
      end
  end.

Section tree_menu_tags.

(** [django.urls.reverse]; [None] stands for [NoReverseMatch]. *)
Variable reverse : string → option string.

Definition _resolve_url (named raw : option string) : string :=
  if truthy named then
    match reverse (default "" named) with
    | Some resolved => resolved
    | None => "#"
    end
  else if truthy raw then default "" raw else "#".

(** The body of the loop at lines 77-79. *)
Definition annotate (it : row) : item :=
  let resolved_url := _resolve_url (named_url it) (url it) in
  {| fields := it;
     resolved_url := resolved_url;
     norm_url := _normalize_path resolved_url |}.

(** [draw_menu] from line 73 on, on the rows the query has delivered. *)
Definition draw_menu_rows (fuel : nat) (request : option HttpRequest)
    (menu_name : string) (rows : list row) : outcome response :=
  let current_path := _normalize_path (getattr_path request) in
  if negb (truthy rows) then Returns Blank
  else
    let items := annotate <$> rows in
    let by_id := index_by_id items in
    let '(children, roots) := foldl link (∅, []) items in
    let '(active_id, _) := foldl (scan current_path) (None, 0%nat) items in
    expanded ← (if truthy active_id then climb fuel by_id active_id ∅
                else Returns (∅ : gset Z));
    root_items ← omap_list (getitem by_id) roots;
    Returns (render_to_string "tree_menu/menu.html"
      {| ctx_menu_name := menu_name;
         items_by_id := by_id;
         root_items := root_items;
         children_map := children;
         active_id := active_id;
         expanded_ids := expanded;
         ctx_request := request |}).

Definition draw_menu (fuel : nat) (context : Context) (menu_name : string)
  : DB (outcome response) :=
  let request := request context in
  items ← fetch_menu_items menu_name;
  mret (draw_menu_rows fuel request menu_name items).

End tree_menu_tags.

(** ** Vocabulary of the properties *)

(** The value of [active_id] when the loop of lines 92-105 ends. *)
Definition find_active (current_path : string) (items : list item) : option Z :=
  (foldl (scan current_path) (None, 0%nat) items).1.

(** The values of [children] and [roots] when the loop of lines 84-87 ends. *)
Definition assemble (items : list item) : gmap Z (list Z) * list Z :=
  foldl link (∅, []) items.

(** An entry the loop of lines 92-105 considers a match: its normalized URL
    is an absolute path, is a prefix of the current path, and is not the bare
    root unless the current path is the bare root. *)
Definition candidate (current_path : string) (it : item) : Prop :=
  startswith (norm_url it) "/" = true
  ∧ (norm_url it = "/" → current_path = "/")
  ∧ startswith current_path (norm_url it) = true.

#[export] Instance candidate_dec cur it : Decision (candidate cur it).
Proof. unfold candidate. apply _. Defined.

(** [it] is filed as a root, respectively as a child of [p], by lines 84-87. *)
Definition is_root (r : row) : Prop := when_truthy (parent_id r) = None.
Definition is_child_of (p : Z) (r : row) : Prop :=
  when_truthy (parent_id r) = Some p.

#[export] Instance is_root_dec r : Decision (is_root r).
Proof. unfold is_root. apply _. Defined.
#[export] Instance is_child_of_dec p r : Decision (is_child_of p r).
Proof. unfold is_child_of. apply _. Defined.

(** [x] is [a] or one of its ancestors: it is met on the way up from [a]
    through the parent references of the entries of [by_id]. *)
Inductive on_chain (by_id : gmap Z item) : Z → Z → Prop :=
| on_chain_here a : on_chain by_id a a
| on_chain_up a (it : item) p x :
    by_id !! a = Some it →
    when_truthy (parent_id it) = Some p →
    on_chain by_id p x →
    on_chain by_id a x.

(** The parent chain that starts at [cur] ends: after finitely many entries
    of [by_id] it arrives at an entry without parent. *)
Inductive reaches_root (by_id : gmap Z item) : option Z → Prop :=
| reaches_root_here cur :
    when_truthy cur = None → reaches_root by_id cur
| reaches_root_up cur c (it : item) :
    when_truthy cur = Some c →
    by_id !! c = Some it →
    reaches_root by_id (parent_id it) →
    reaches_root by_id cur.

(** Every entry of the list has a parent chain that ends inside the list:
    no parent reference leaves the list and none leads back to its origin. *)
Definition parents_end (items : list item) : Prop :=
  ∀ it : item, it ∈ items → reaches_root (index_by_id items) (Some (id it)).

(** ** The filter [get_item] *)

(** A value a template hands to a filter: a dict with integer keys, or
    anything else. *)
Inductive template_value (V : Type) :=
| a_dict (d : gmap Z V)
| not_a_dict.
Arguments a_dict {V} d.
Arguments not_a_dict {V}.

(** Lines 12-19; the result [None] is Python's [None]. [dict.get] does not
    call the default factory of a [defaultdict]. *)
Definition get_item {V} (dictionary : template_value V) (key : Z) : option V :=
  match dictionary with
  | a_dict d => d !! key
  | not_a_dict => None
  end.

(** ** The methods of tree_menu/models.py *)

(** How a call of [clean] ends. *)
Inductive clean_outcome :=
| Cleaned
| ValidationError (message : string)
| DoesNotExist.

(** [self.parent]: [None] without a parent id, otherwise the stored item with
    that primary key; the inner [None] is [MenuItem.DoesNotExist]. *)
Definition get_parent (t : tables) (self : MenuItem) : option (option MenuItem) :=
  match parent self with
  | None => None
  | Some p => Some (find (λ mi, pk mi =? p) (menu_items t))
  end.

(** [Menu.__str__] *)
Definition Menu__str__ (self : Menu) : string :=
  if truthy (menu_title self) then menu_title self else name self.

(** [MenuItem.__str__] *)
Definition MenuItem__str__ (self : MenuItem) : string := item_title self.

(** [MenuItem.clean]; a model instance is truthy. *)
Definition clean (t : tables) (self : MenuItem) : clean_outcome :=
  if Bool.eqb (truthy (item_url self)) (truthy (item_named_url self)) then
    ValidationError "Укажи либо 'Явный URL', либо 'Named URL', но не оба."
  else
    match get_parent t self with
    | None => Cleaned
    | Some None => DoesNotExist
    | Some (Some parent) =>
        if negb (menu_id parent =? menu_id self) then
          ValidationError "Родитель должен принадлежать тому же меню."
        else Cleaned
    end.

(** ** More vocabulary *)

#[export] Instance row_eq_dec : EqDecision row.
Proof. solve_decision. Defined.

(** The parent chain that starts at [cur] ends after exactly [n] entries. *)
Inductive chain_length (by_id : gmap Z item) : option Z → nat → Prop :=
| chain_length_here cur :
    when_truthy cur = None → chain_length by_id cur 0
| chain_length_up cur c (it : item) n :
    when_truthy cur = Some c →
    by_id !! c = Some it →
    chain_length by_id (parent_id it) n →
    chain_length by_id cur (S n).

(** *** The words of the specification on parents *)

(** Following the specification, not the code: [x] is [a] or an ancestor of
    [a], an id reached from the entry [a] by going from an entry to the id in
    its [parent_id], whatever that id is. *)
Inductive ancestor_or_self (by_id : gmap Z item) : Z → Z → Prop :=
| ancestor_or_self_here a : ancestor_or_self by_id a a
| ancestor_or_self_up a (it : item) p x :
    by_id !! a = Some it →
    parent_id it = Some p →
    ancestor_or_self by_id p x →
    ancestor_or_self by_id a x.

(** Following the specification, not the code: the parent chain of the entry
    [a] stays inside the list and ends at its root: [a] is an entry, every
    [parent_id] on the way is the id of an entry, and the way arrives at an
    entry whose [parent_id] is [None]. *)
Inductive ends_at_root (by_id : gmap Z item) : Z → Prop :=
| ends_at_root_here a (it : item) :
    by_id !! a = Some it → parent_id it = None → ends_at_root by_id a
| ends_at_root_up a (it : item) p :
    by_id !! a = Some it →
    parent_id it = Some p →
    ends_at_root by_id p →
    ends_at_root by_id a.

(** ** tree_menu/tests.py: the fixture of [DrawMenuIntegrationTests] *)

Module Fixture.

Definition main_menu : Menu :=
  {| menu_pk := 1; name := "main_menu"; menu_title := "main" |}.
Definition footer_menu : Menu :=
  {| menu_pk := 2; name := "footer_menu"; menu_title := "" |}.

Definition entry (pk menu : Z) (parent : option Z) (title url named : string)
    (sort_order : Z) : MenuItem :=
  {| pk := pk; menu_id := menu; parent := parent; item_title := title;
     item_url := url; item_named_url := named; item_sort_order := sort_order |}.

Definition item_home := entry 1 1 None "Home" "" "index" 10.
Definition item_blog := entry 2 1 None "Blog" "" "blog" 20.
Definition item_about := entry 3 1 None "About" "" "about" 40.
Definition item_ext := entry 4 1 None "External" "http://example.com" "" 50.
Definition item_cats := entry 5 1 (Some 2) "Categories" "" "blog_categories" 1.
Definition item_cat1 := entry 6 1 (Some 5) "Category 1" "/blog/categories/1/" "" 1.
Definition item_footer := entry 7 2 None "Footer Link" "/footer" "" 0.

Definition db : tables :=
  {| menus := [main_menu; footer_menu];
     menu_items := [item_home; item_blog; item_about; item_ext; item_cats;
                    item_cat1; item_footer] |}.

Definition conn : connection := {| data := db; queries := [] |}.

(** [RequestFactory().get(path)] in a template context, for a [path] without
    query string. *)
Definition get (p : string) : Context := {| request := Some {| path := p |} |}.

(** The rows of the main menu as the query of [draw_menu] delivers them. *)
Definition rows : list row := menu_item_rows db "main_menu".

(** Menus that the models can store and the fixture does not contain:
    ["self_parent"] has an entry that is its own parent, ["two_cycle"] two
    entries that are each other's parent, ["stray_parent"] an entry whose
    parent belongs to the menu ["elsewhere"], ["zero_id"] an entry with id 0. *)
Definition odd_db : tables :=
  {| menus :=
       [ {| menu_pk := 1; name := "self_parent"; menu_title := "" |};
         {| menu_pk := 2; name := "two_cycle"; menu_title := "" |};
         {| menu_pk := 3; name := "stray_parent"; menu_title := "" |};
         {| menu_pk := 4; name := "zero_id"; menu_title := "" |};
         {| menu_pk := 5; name := "elsewhere"; menu_title := "" |} ];
     menu_items :=
       [ entry 1 1 (Some 1) "" "/a/" "" 0;
         entry 2 2 (Some 3) "" "/a/" "" 0;
         entry 3 2 (Some 2) "" "/b/" "" 0;
         entry 4 3 (Some 9) "" "/a/" "" 0;
         entry 9 5 None "" "/e/" "" 0;
         entry 0 4 None "" "/a/" "" 0 ] |}.

Definition odd_conn : connection := {| data := odd_db; queries := [] |}.

(** A row with a raw URL only. *)
Definition plain (id : Z) (parent_id : option Z) (url : string) : row :=
  {| id := id; parent_id := parent_id; title := ""; url := Some url;
     named_url := Some ""; sort_order := 0 |}.

(** A menu ["zero_parent"] whose root entry has id 0 and whose other entry has
    that entry as parent. *)
Definition zero_parent_db : tables :=
  {| menus := [ {| menu_pk := 1; name := "zero_parent"; menu_title := "" |} ];
     menu_items :=
       [ entry 0 1 None "" "/z/" "" 0;
         entry 20 1 (Some 0) "" "/z/c/" "" 1 ] |}.

Definition zero_parent_conn : connection :=
  {| data := zero_parent_db; queries := [] |}.

(** A menu that exists and owns no entry. *)
Definition db_with_empty_menu : tables :=
  {| menus := [main_menu; footer_menu;
               {| menu_pk := 3; name := "side_menu"; menu_title := "" |}];
     menu_items := menu_items db |}.

End Fixture.

(** * Properties *)

(** Runs the binds of the [outcome] monad whose first part is known. *)
Ltac run_outcome := cbn [mbind mret outcome_bind outcome_ret].

(** ** Strings *)

Section str_facts.

Implicit Types s p q : string.

Lemma startswith_cons_inv s c :
  startswith s (String c "") = true → ∃ s', s = String c s'.
Proof.
  destruct s as [|d s']; simpl; [discriminate|].
  rewrite andb_true_r. intros ->%Ascii.eqb_eq. by exists s'.
Qed.

(** Two prefixes of one string that have the same length are the same string. *)
Lemma startswith_same_len s p q :
  startswith s p = true → startswith s q = true → len p = len q → p = q.
Proof.
  revert s q. induction p as [|c p IH]; intros s [|d q]; simpl; try done.
  destruct s as [|e s]; [discriminate|].
  intros [->%Ascii.eqb_eq Hp]%andb_true_iff [->%Ascii.eqb_eq Hq]%andb_true_iff.
  unfold len; simpl. intros [= Hlen]. f_equal. by eapply IH.
Qed.

Lemma endswith_unfold s p :
  endswith s p =
  if String.eqb s p then true
  else match s with EmptyString => false | String _ s' => endswith s' p end.
Proof. by destruct s. Qed.

Lemma endswith_refl s : endswith s s = true.
Proof. by rewrite endswith_unfold, String.eqb_refl. Qed.

Lemma endswith_app s p : endswith (s +:+ p) p = true.
Proof.
  induction s as [|c s IH]; [apply endswith_refl|].
  rewrite endswith_unfold. destruct (String.eqb _ _); [done|]. apply IH.
Qed.

End str_facts.

(** ** [_normalize_path] *)

Section normalize_path.

(** An absolute path that already ends with a slash is left as it is. *)
Lemma normalize_path_canonical (p : string) :
  startswith p "/" = true → endswith p "/" = true → _normalize_path p = p.
Proof.
  intros [p' ->]%startswith_cons_inv Hend.
  unfold _normalize_path. cbn [truthy str_truthy negb].
  replace (startswith_any (String "/" p') _) with false by done.
  replace (startswith (String "/" p') "/") with true by done.
  cbn [negb]. by rewrite Hend, andb_false_r.
Qed.

(** What the two rewriting steps produce on a path that is neither empty nor
    left untouched. *)
Lemma normalize_path_absolute (p : string) :
  p ≠ "" → startswith_any p untouched = false →
  startswith (_normalize_path p) "/" = true
  ∧ endswith (_normalize_path p) "/" = true.
Proof.
  intros Hne Hun. unfold _normalize_path.
  destruct p as [|c p]; [done|]. cbn [truthy str_truthy negb].
  rewrite Hun.
  set (p1 := if negb (startswith (String c p) "/") then _ else _).
  assert (startswith p1 "/" = true) as Hp1.
  { subst p1. by destruct (startswith (String c p) "/") eqn:E. }
  destruct (String.eqb p1 "/") eqn:Eroot; cbn [negb andb].
  { apply String.eqb_eq in Eroot. by rewrite Eroot. }
  destruct (endswith p1 "/") eqn:Eend; cbn [negb]; [done|].
  split; [|apply endswith_app].
  apply startswith_cons_inv in Hp1 as [p1' ->]. done.
Qed.

(** C5: the empty string normalizes to "/"; a string starting with "http://",
    "https://" or "#" is returned unchanged; any other string normalizes to a
    string that starts with "/" and ends with "/" (the bare root "/" being the
    one-character case); and the five sample values of the specification. *)
Theorem normalize_path_spec (p : string) :
  (p = "" → _normalize_path p = "/")
  ∧ (startswith_any p ["http://"; "https://"; "#"] = true → _normalize_path p = p)
  ∧ (p ≠ "" → startswith_any p ["http://"; "https://"; "#"] = false →
       startswith (_normalize_path p) "/" = true
       ∧ (_normalize_path p = "/" ∨ endswith (_normalize_path p) "/" = true)
       ∧ endswith (_normalize_path p) "/" = true)
  ∧ _normalize_path "" = "/"
  ∧ _normalize_path "/a" = "/a/"
  ∧ _normalize_path "/a/" = "/a/"
  ∧ _normalize_path "#x" = "#x"
  ∧ _normalize_path "http://h" = "http://h".
Proof.
  split; [by intros ->|]. split.
  { intros Hany. unfold _normalize_path. fold untouched in Hany.
    rewrite Hany. destruct p; [discriminate Hany|done]. }
  split; [|done].
  intros Hne Hun. destruct (normalize_path_absolute p Hne Hun) as [Hs He].
  auto.
Qed.

(** C6: normalizing twice is normalizing once, on every string. *)
Theorem normalize_path_idempotent (p : string) :
  _normalize_path (_normalize_path p) = _normalize_path p.
Proof.
  destruct (decide (p = "")) as [-> |Hne]; [reflexivity|].
  destruct (startswith_any p untouched) eqn:Hun.
  - assert (_normalize_path p = p) as Hfix.
    { unfold _normalize_path. rewrite Hun. by destruct p. }
    by rewrite !Hfix.
  - destruct (normalize_path_absolute p Hne Hun) as [Hs He].
    by apply normalize_path_canonical.
Qed.

End normalize_path.

(** ** [_resolve_url] *)

Section resolve_url.

Variable reverse : string → option string.

Lemma resolve_url_unresolvable (named raw : option string) :
  truthy named = true → reverse (default "" named) = None →
  _resolve_url reverse named raw = "#".
Proof. intros Hn Hr. unfold _resolve_url. by rewrite Hn, Hr. Qed.

(** C7: a present named route that resolves gives the resolver's path; one
    that does not resolve gives "#"; with no named route a present raw URL is
    returned as it is; with neither field populated the result is "#". The
    loop that stores the resolved URLs treats an entry with an unresolvable
    route like any other: it runs to the end of the list, that entry gets "#"
    and the entries around it get what they would get without it. *)
Theorem resolve_url_spec :
  (∀ n raw u, n ≠ "" → reverse n = Some u →
     _resolve_url reverse (Some n) raw = u)
  ∧ (∀ n raw, n ≠ "" → reverse n = None →
       _resolve_url reverse (Some n) raw = "#")
  ∧ (∀ named r, truthy named = false → r ≠ "" →
       _resolve_url reverse named (Some r) = r)
  ∧ (∀ named raw, truthy named = false → truthy raw = false →
       _resolve_url reverse named raw = "#")
  ∧ (∀ rows1 (it : row) rows2 n,
       named_url it = Some n → n ≠ "" → reverse n = None →
       annotate reverse <$> (rows1 ++ it :: rows2)
       = (annotate reverse <$> rows1)
           ++ {| fields := it; resolved_url := "#"; norm_url := "#" |}
           :: (annotate reverse <$> rows2)).
Proof.
  repeat split.
  - intros n raw u Hn Hu. unfold _resolve_url. cbn [default].
    destruct n; [done|]. cbn. by rewrite Hu.
  - intros n raw Hn Hr. apply resolve_url_unresolvable; [by destruct n|done].
  - intros named r Hnamed Hr. unfold _resolve_url. rewrite Hnamed.
    by destruct r.
  - intros named raw Hnamed Hraw. unfold _resolve_url. by rewrite Hnamed, Hraw.
  - intros rows1 it rows2 n Hnamed Hn Hr.
    rewrite fmap_app, fmap_cons. do 2 f_equal.
    unfold annotate.
    rewrite (resolve_url_unresolvable (named_url it) (url it)).
    + done.
    + rewrite Hnamed. by destruct n.
    + by rewrite Hnamed.
Qed.

End resolve_url.

(** ** The query *)

Section query.

Variable reverse : string → option string.

Lemma draw_menu_unfold fuel context menu_name c :
  draw_menu reverse fuel context menu_name c
  = (draw_menu_rows reverse fuel (request context) menu_name
       (menu_item_rows (data c) menu_name),
     {| data := data c; queries := queries c ++ [menu_name] |}).
Proof. reflexivity. Qed.

(** No item is joined to a menu of that name: the query delivers no row. *)
Lemma no_item_no_rows t menu_name :
  Forall (λ mi, menu__name t menu_name mi = false) (menu_items t) →
  menu_item_rows t menu_name = [].
Proof.
  intros Hall. unfold menu_item_rows.
  assert (filter (λ mi, menu__name t menu_name mi = true) (menu_items t) = [])
    as ->; [|done].
  induction Hall as [|mi l Hmi _ IH]; [done|].
  rewrite filter_cons_False; [done|]. by rewrite Hmi.
Qed.

(** No menu has that name: no item is joined to one. *)
Lemma unknown_menu_no_rows t menu_name :
  Forall (λ m, name m ≠ menu_name) (menus t) →
  menu_item_rows t menu_name = [].
Proof.
  intros Hall. apply no_item_no_rows, Forall_forall. intros mi _.
  unfold menu__name. induction Hall as [|m l Hm _ IH]; [done|].
  cbn [existsb]. rewrite IH, orb_false_r.
  apply andb_false_iff. right. by apply String.eqb_neq.
Qed.

(** C8: when no stored menu has the given name, [draw_menu] returns the empty
    string, whatever the request; it neither raises nor runs on. *)
Theorem unknown_menu_blank fuel context menu_name c :
  Forall (λ m, name m ≠ menu_name) (menus (data c)) →
  (draw_menu reverse fuel context menu_name c).1 = Returns Blank.
Proof.
  intros Hunknown. rewrite draw_menu_unfold. cbn [fst].
  by rewrite unknown_menu_no_rows.
Qed.

(** C10: whenever the query delivers no row, [draw_menu] returns the empty
    string; so two stores on which it delivers no row, be it for want of the
    menu or for want of entries in it, get the same answer. *)
Theorem empty_fetch_blank fuel context menu_name c1 c2 :
  menu_item_rows (data c1) menu_name = [] →
  menu_item_rows (data c2) menu_name = [] →
  (draw_menu reverse fuel context menu_name c1).1 = Returns Blank
  ∧ (draw_menu reverse fuel context menu_name c2).1
    = (draw_menu reverse fuel context menu_name c1).1.
Proof.
  intros H1 H2. rewrite !draw_menu_unfold. cbn [fst]. by rewrite H1, H2.
Qed.

(** C4: a call of [draw_menu] executes exactly one query, for the rows of the
    named menu, and leaves the tables as they are; its answer is computed from
    the rows of that query alone, so it is the same on any two stores on which
    the query delivers the same rows. *)
Theorem draw_menu_one_query fuel context menu_name c :
  queries (draw_menu reverse fuel context menu_name c).2
  = queries c ++ [menu_name]
  ∧ length (queries (draw_menu reverse fuel context menu_name c).2)
    = S (length (queries c))
  ∧ data (draw_menu reverse fuel context menu_name c).2 = data c
  ∧ (draw_menu reverse fuel context menu_name c).1
    = draw_menu_rows reverse fuel (request context) menu_name
        (menu_item_rows (data c) menu_name)
  ∧ (∀ c', menu_item_rows (data c') menu_name
           = menu_item_rows (data c) menu_name →
           (draw_menu reverse fuel context menu_name c').1
           = (draw_menu reverse fuel context menu_name c).1).
Proof.
  rewrite draw_menu_unfold. cbn [fst snd queries data].
  repeat split.
  - rewrite length_app. cbn. lia.
  - intros c' Hrows. rewrite draw_menu_unfold. cbn [fst]. by rewrite Hrows.
Qed.

End query.

Lemma unknown_menu_blank_witness :
  (draw_menu Urls.reverse 0 (Fixture.get "/") "no_such_menu" Fixture.conn).1
  = Returns Blank.
Proof.
  apply (unknown_menu_blank Urls.reverse 0 (Fixture.get "/") "no_such_menu"
           Fixture.conn).
  repeat constructor; discriminate.
Defined.

(** The fixture has no menu "side_menu"; [Fixture.db_with_empty_menu] has one,
    without entries. *)
Lemma empty_fetch_blank_witness :
  (draw_menu Urls.reverse 0 (Fixture.get "/") "side_menu" Fixture.conn).1
  = Returns Blank
  ∧ (draw_menu Urls.reverse 0 (Fixture.get "/") "side_menu"
       {| data := Fixture.db_with_empty_menu; queries := [] |}).1
    = (draw_menu Urls.reverse 0 (Fixture.get "/") "side_menu" Fixture.conn).1.
Proof.
  apply (empty_fetch_blank Urls.reverse 0 (Fixture.get "/") "side_menu"
           Fixture.conn {| data := Fixture.db_with_empty_menu; queries := [] |});
    reflexivity.
Defined.

(** ** The body of [draw_menu] *)

Section draw_menu_body.

Variable reverse : string → option string.

(** The steps of [draw_menu_rows] on a list that is not empty, one after the
    other. *)
Lemma draw_menu_rows_unfold fuel request menu_name rows :
  rows ≠ [] →
  let items := annotate reverse <$> rows in
  let active := find_active (_normalize_path (getattr_path request)) items in
  draw_menu_rows reverse fuel request menu_name rows
  = (expanded ← (if truthy active
                 then climb fuel (index_by_id items) active ∅
                 else Returns (∅ : gset Z));
     root_items ← omap_list (getitem (index_by_id items)) (assemble items).2;
     Returns (render_to_string "tree_menu/menu.html"
       {| ctx_menu_name := menu_name;
          items_by_id := index_by_id items;
          root_items := root_items;
          children_map := (assemble items).1;
          active_id := active;
          expanded_ids := expanded;
          ctx_request := request |})).
Proof.
  intros Hrows. cbv zeta. unfold draw_menu_rows, find_active, assemble.
  destruct rows as [|r rows]; [done|]. cbn [truthy list_truthy negb].
  destruct (foldl link _ _) as [children roots].
  by destruct (foldl (scan _) _ _) as [active max_len].
Qed.

(** *** The id index *)

Lemma getitem_Some {V} (d : gmap Z V) (k : Z) (v : V) :
  d !! k = Some v → getitem d k = Returns v.
Proof. unfold getitem. by intros ->. Qed.

Lemma getitem_None {V} (d : gmap Z V) (k : Z) :
  d !! k = None → getitem d k = Raises (KeyError k).
Proof. unfold getitem. by intros ->. Qed.

Lemma index_by_id_snoc (items : list item) (it : item) :
  index_by_id (items ++ [it]) = <[id it := it]> (index_by_id items).
Proof. unfold index_by_id. by rewrite foldl_snoc. Qed.

Lemma index_by_id_lookup (items : list item) (k : Z) (it : item) :
  index_by_id items !! k = Some it → id it = k ∧ it ∈ items.
Proof.
  induction items as [|x items IH] using rev_ind; [done|].
  rewrite index_by_id_snoc, lookup_insert. case_decide as Hk.
  - intros [= ->]. split; [done|]. apply elem_of_app. right. by left.
  - intros [? ?]%IH. split; [done|]. apply elem_of_app. by left.
Qed.

Lemma index_by_id_is_Some (items : list item) (it : item) :
  it ∈ items → is_Some (index_by_id items !! id it).
Proof.
  induction items as [|x items IH] using rev_ind; [by intros ?%elem_of_nil|].
  rewrite index_by_id_snoc, lookup_insert. case_decide; [by eexists|].
  intros [Hin|Hin%list_elem_of_singleton]%elem_of_app; [by apply IH|].
  by subst.
Qed.

(** With pairwise distinct ids the index gives back each item of the list. *)
Lemma index_by_id_NoDup (items : list item) (it : item) :
  NoDup ((λ x : item, id x) <$> items) → it ∈ items →
  index_by_id items !! id it = Some it.
Proof.
  induction items as [|x items IH] using rev_ind; [by intros _ ?%elem_of_nil|].
  rewrite fmap_app, index_by_id_snoc, lookup_insert. cbn [fmap list_fmap].
  intros [Hnd [Hdis _]]%NoDup_app.
  intros [Hin|Hin%list_elem_of_singleton]%elem_of_app.
  - case_decide as Hk; [|by apply IH].
    exfalso. apply (Hdis (id it)).
    + apply list_elem_of_fmap. by exists it.
    + rewrite Hk. by left.
  - subst. by case_decide.
Qed.

(** *** Roots and children *)

Lemma link_fold (items : list item) (children : gmap Z (list Z)) (roots : list Z) :
  (foldl link (children, roots) items).2
  = roots ++ ((λ x : item, id x) <$> filter (λ x : item, is_root x) items)
  ∧ ∀ p, (foldl link (children, roots) items).1 !!! p
       = children !!! p
           ++ ((λ x : item, id x) <$> filter (λ x : item, is_child_of p x) items).
Proof.
  revert children roots.
  induction items as [|it items IH]; intros children roots.
  { cbn. split; [by rewrite app_nil_r|]. intros p. by rewrite app_nil_r. }
  cbn [foldl]. unfold link at 2 4.
  destruct (when_truthy (parent_id it)) as [q|] eqn:Hq.
  - destruct (IH (<[q:=children !!! q ++ [id it]]> children) roots) as [Hr Hc].
    split.
    + rewrite Hr, filter_cons_False; [done|]. unfold is_root. by rewrite Hq.
    + intros p. rewrite Hc, lookup_total_insert. case_decide as Hp.
      * subst p. rewrite filter_cons_True by done.
        by rewrite fmap_cons, <-app_assoc.
      * rewrite filter_cons_False; [done|].
        unfold is_child_of. rewrite Hq. congruence.
  - destruct (IH children (roots ++ [id it])) as [Hr Hc]. split.
    + rewrite Hr, filter_cons_True by done.
      by rewrite fmap_cons, <-app_assoc.
    + intros p. rewrite Hc, filter_cons_False; [done|].
      unfold is_child_of. by rewrite Hq.
Qed.

Lemma filter_annotate (P : row → Prop) `{!∀ r, Decision (P r)} (rows : list row) :
  filter (λ x : item, P x) (annotate reverse <$> rows)
  = annotate reverse <$> filter P rows.
Proof.
  induction rows as [|r rows IH]; [done|].
  rewrite fmap_cons, !filter_cons. cbn [annotate fields].
  destruct (decide (P r)); by rewrite IH.
Qed.

Lemma ids_annotate (rows : list row) :
  (λ x : item, id x) <$> (annotate reverse <$> rows) = id <$> rows.
Proof. rewrite <-list_fmap_compose. by apply list_fmap_ext. Qed.

Lemma assemble_roots (rows : list row) :
  (assemble (annotate reverse <$> rows)).2 = id <$> filter is_root rows.
Proof.
  unfold assemble.
  rewrite (proj1 (link_fold _ _ _)), app_nil_l.
  by rewrite (filter_annotate is_root), ids_annotate.
Qed.

Lemma assemble_children (rows : list row) (p : Z) :
  (assemble (annotate reverse <$> rows)).1 !!! p
  = id <$> filter (is_child_of p) rows.
Proof.
  unfold assemble.
  rewrite (proj2 (link_fold _ _ _)), lookup_total_empty. cbn [inhabitant].
  by rewrite (filter_annotate (is_child_of p)), ids_annotate.
Qed.

End draw_menu_body.

(** ** Sibling order *)


#[export] Instance key_le_trans : Transitive key_le.
Proof. intros r1 r2 r3. unfold key_le. lia. Qed.

#[export] Instance key_le_total : Total key_le.
Proof. intros r1 r2. unfold key_le. lia. Qed.

Section sibling_order.

Variable reverse : string → option string.

(** The query delivers its rows in ascending (sort key, id) order. *)
Lemma menu_item_rows_sorted t menu_name :
  Sorted key_le (menu_item_rows t menu_name).
Proof. apply (Sorted_merge_sort key_le). Qed.

(** The rows of a sorted list that pass a test are still sorted. *)
Lemma Sorted_filter (P : row → Prop) `{!∀ r, Decision (P r)} (rows : list row) :
  Sorted key_le rows → Sorted key_le (filter P rows).
Proof.
  intros Hs%(Sorted_StronglySorted key_le).
  apply StronglySorted_Sorted.
  induction Hs as [|r rows Hs IH Hr]; [constructor|].
  rewrite filter_cons. destruct (decide (P r)); [|done].
  constructor; [done|].
  apply Forall_forall. intros r' [_ Hin]%list_elem_of_filter.
  by eapply Forall_forall in Hr.
Qed.

(** [[by_id[rid] for rid in roots]] when it returns. *)
Lemma omap_getitem_returns (by_id : gmap Z item) (ks : list Z) (vs : list item) :
  omap_list (getitem by_id) ks = Returns vs →
  Forall2 (λ k v, by_id !! k = Some v) ks vs.
Proof.
  revert vs. induction ks as [|k ks IH]; intros vs.
  { intros [= <-]. constructor. }
  cbn [omap_list].
  destruct (by_id !! k) as [v|] eqn:Hk;
    [rewrite (getitem_Some _ _ _ Hk)|rewrite (getitem_None _ _ Hk)];
    run_outcome; [|done].
  destruct (omap_list (getitem by_id) ks) as [vs'| |]; run_outcome; try done.
  intros [= <-]. constructor; [done|]. by apply IH.
Qed.

(** It does return when every key is in the dict. *)
Lemma omap_getitem_total (by_id : gmap Z item) (ks : list Z) :
  Forall (λ k, is_Some (by_id !! k)) ks →
  ∃ vs, omap_list (getitem by_id) ks = Returns vs.
Proof.
  induction 1 as [|k ks [v Hk] _ [vs IH]]; [by eexists|].
  exists (v :: vs). cbn [omap_list]. by rewrite (getitem_Some _ _ _ Hk), IH.
Qed.

Lemma root_items_ids (items : list item) (ks : list Z) (vs : list item) :
  Forall2 (λ k v, index_by_id items !! k = Some v) ks vs →
  (λ x : item, id x) <$> vs = ks.
Proof.
  induction 1 as [|k v ks vs Hk _ IH]; [done|].
  rewrite fmap_cons, IH. f_equal. by apply index_by_id_lookup in Hk as [? _].
Qed.

Lemma root_items_NoDup (rows sub : list row) (vs : list item) :
  NoDup (id <$> rows) → sub ⊆ rows →
  Forall2 (λ k v, index_by_id (annotate reverse <$> rows) !! k = Some v)
          (id <$> sub) vs →
  fields <$> vs = sub.
Proof.
  intros Hnd. revert vs.
  induction sub as [|r sub IH]; intros vs Hsub; cbn.
  { by intros ->%Forall2_nil_inv_l. }
  intros (v & vs' & Hv & Hvs & ->)%Forall2_cons_inv_l.
  rewrite fmap_cons, (IH vs'); [|set_solver|done]. f_equal.
  assert (annotate reverse r ∈ annotate reverse <$> rows) as Hin.
  { apply list_elem_of_fmap_2. set_solver. }
  apply index_by_id_NoDup in Hin; [|by rewrite ids_annotate].
  cbn in Hin. rewrite Hin in Hv. by injection Hv as <-.
Qed.

(** C9: on rows delivered in ascending (sort key, id) order, the roots handed
    to the template and the children filed under any parent are the root rows,
    respectively the child rows of that parent, in the order in which the rows
    were delivered: each is a subsequence of the delivered list and hence
    ascending in (sort key, id). *)
Theorem sibling_order fuel request menu_name rows t mc :
  Sorted key_le rows →
  draw_menu_rows reverse fuel request menu_name rows
  = Returns (render_to_string t mc) →
  (filter is_root rows `sublist_of` rows
   ∧ Sorted key_le (filter is_root rows)
   ∧ (λ x : item, id x) <$> root_items mc = id <$> filter is_root rows
   ∧ (NoDup (id <$> rows) → fields <$> root_items mc = filter is_root rows))
  ∧ ∀ p, filter (is_child_of p) rows `sublist_of` rows
       ∧ Sorted key_le (filter (is_child_of p) rows)
       ∧ children_map mc !!! p = id <$> filter (is_child_of p) rows.
Proof.
  intros Hsorted Hrun.
  destruct (decide (rows = [])) as [-> |Hne]; [done|].
  rewrite draw_menu_rows_unfold in Hrun by done. cbv zeta in Hrun.
  destruct (if truthy _ then _ else _) as [expanded| |]; cbn in Hrun; try done.
  destruct (omap_list _ _) as [vs| |] eqn:Hvs; cbn in Hrun; try done.
  injection Hrun as <- <-. cbn [root_items children_map].
  apply omap_getitem_returns in Hvs. rewrite assemble_roots in Hvs.
  split.
  - split; [by apply sublist_filter|].
    split; [by apply Sorted_filter|].
    split; [by eapply root_items_ids|].
    intros Hnd. eapply root_items_NoDup; [done| |done].
    by apply list_subseteq_filter.
  - intros p. split; [by apply sublist_filter|].
    split; [by apply Sorted_filter|]. apply assemble_children.
Qed.

End sibling_order.

(** ** The active entry *)

Section active_entry.

Variable reverse : string → option string.

Implicit Types (it x y : item) (st : option Z * nat).

Lemma scan_candidate cur st it :
  candidate cur it →
  scan cur st it
  = if (st.2 <? len (norm_url it))%nat
    then (Some (id it), len (norm_url it)) else st.
Proof.
  intros (Habs & Hroot & Hpre). unfold scan. destruct st as [a m].
  rewrite Habs, Hpre. cbn [negb snd].
  destruct (String.eqb_spec (norm_url it) "/") as [Heq|_]; [|done].
  by rewrite (Hroot Heq).
Qed.

Lemma scan_not_candidate cur st it : ¬ candidate cur it → scan cur st it = st.
Proof.
  intros Hno. unfold scan. destruct st as [a m].
  destruct (startswith (norm_url it) "/") eqn:Habs; [|done]. cbn [negb].
  destruct (String.eqb_spec (norm_url it) "/") as [Heq|Hne];
    destruct (String.eqb_spec cur "/") as [Hcur|Hcur]; cbn [negb andb];
    try done;
    (destruct (startswith cur (norm_url it)) eqn:Hpre; [|done]);
    exfalso; apply Hno; repeat split; done.
Qed.

Lemma candidate_len cur it : candidate cur it → (0 < len (norm_url it))%nat.
Proof.
  intros ([s Hs]%startswith_cons_inv & _). rewrite Hs. unfold len. cbn. lia.
Qed.

(** Two matching entries whose normalized URLs have the same length have the
    same normalized URL. *)
Lemma candidate_tie cur x y :
  candidate cur x → candidate cur y →
  len (norm_url x) = len (norm_url y) → norm_url x = norm_url y.
Proof. intros (_ & _ & Hx) (_ & _ & Hy). by apply startswith_same_len with cur. Qed.

(** What [(active_id, max_len)] holds after the loop has run over [items]. *)
Lemma scan_fold cur (items : list item) :
  match foldl (scan cur) (None, 0%nat) items with
  | (None, m) => m = 0%nat ∧ ∀ it, it ∈ items → ¬ candidate cur it
  | (Some a, m) =>
      ∃ l1 it l2,
        items = l1 ++ it :: l2 ∧ id it = a ∧ m = len (norm_url it)
        ∧ candidate cur it
        ∧ (∀ x, x ∈ l1 → candidate cur x →
             (len (norm_url x) < len (norm_url it))%nat)
        ∧ (∀ x, x ∈ l2 → candidate cur x →
             (len (norm_url x) ≤ len (norm_url it))%nat)
  end.
Proof.
  induction items as [|y items IH] using rev_ind.
  { cbn. split; [done|]. by intros it ?%elem_of_nil. }
  rewrite foldl_snoc.
  destruct (foldl (scan cur) (None, 0%nat) items) as [[a|] m].
  - destruct IH as (l1 & it & l2 & -> & <- & -> & Hit & Hl1 & Hl2).
    destruct (decide (candidate cur y)) as [Hy|Hy].
    + rewrite scan_candidate by done. cbn [snd].
      destruct (Nat.ltb_spec (len (norm_url it)) (len (norm_url y))) as [Hlt|Hge].
      * exists ((l1 ++ it :: l2)), y, []. split_and!; try done.
        -- intros x [Hx|[-> |Hx]%elem_of_cons]%elem_of_app Hc; [|done|].
           ++ specialize (Hl1 x Hx Hc). lia.
           ++ specialize (Hl2 x Hx Hc). lia.
        -- by intros x ?%elem_of_nil.
      * exists l1, it, (l2 ++ [y]). split_and!; try done.
        -- by rewrite <-app_assoc.
        -- intros x [Hx| ->%list_elem_of_singleton]%elem_of_app Hc; [|done].
           by apply Hl2.
    + rewrite scan_not_candidate by done.
      exists l1, it, (l2 ++ [y]). split_and!; try done.
      * by rewrite <-app_assoc.
      * intros x [Hx| ->%list_elem_of_singleton]%elem_of_app Hc; [|done].
        by apply Hl2.
  - destruct IH as [-> Hnone].
    destruct (decide (candidate cur y)) as [Hy|Hy].
    + rewrite scan_candidate by done. cbn [snd].
      pose proof (candidate_len _ _ Hy) as Hpos.
      destruct (Nat.ltb_spec 0 (len (norm_url y))) as [_|?]; [|lia].
      exists items, y, []. split_and!; try done.
      * intros x Hx Hc. by apply Hnone in Hc.
      * by intros x ?%elem_of_nil.
    + rewrite scan_not_candidate by done. split; [done|].
      intros it [Hx| ->%list_elem_of_singleton]%elem_of_app; [by apply Hnone|done].
Qed.

Lemma fields_annotate (rows : list row) :
  fields <$> (annotate reverse <$> rows) = rows.
Proof. rewrite <-list_fmap_compose. apply list_fmap_id. Qed.

End active_entry.

(** ** The climb through the parents *)

Section climb.

Implicit Types (by_id : gmap Z item) (cur : option Z) (expanded : gset Z).

Lemma climb_unfold fuel by_id cur expanded :
  climb fuel by_id cur expanded
  = match when_truthy cur with
    | None => Returns expanded
    | Some c =>
        match fuel with
        | O => OutOfFuel
        | S fuel' =>
            getitem by_id c ≫= λ it : item,
              climb fuel' by_id (parent_id it) (expanded ∪ {[c]})
        end
    end.
Proof. by destruct fuel. Qed.

Lemma when_truthy_nonzero c : c ≠ 0 → when_truthy (Some c) = Some c.
Proof.
  intros Hc. unfold when_truthy. cbn. unfold truthy, int_truthy.
  by destruct (Z.eqb_spec c 0).
Qed.

Lemma on_chain_inv by_id a x :
  on_chain by_id a x ↔
  x = a ∨ ∃ (it : item) p,
            by_id !! a = Some it ∧ when_truthy (parent_id it) = Some p
            ∧ on_chain by_id p x.
Proof.
  split.
  - destruct 1 as [a|a it p x Hit Hp Hch]; [by left|]. right. eauto.
  - intros [-> |(it & p & ? & ? & ?)]; [constructor|]. by econstructor.
Qed.

(** A run of the loop that returns has collected the chain of [cur]. *)
Lemma climb_collects fuel by_id cur expanded e :
  climb fuel by_id cur expanded = Returns e →
  ∀ x, x ∈ e ↔ x ∈ expanded ∨ ∃ c, when_truthy cur = Some c ∧ on_chain by_id c x.
Proof.
  revert cur expanded.
  induction fuel as [|fuel IH]; intros cur expanded; rewrite climb_unfold;
    destruct (when_truthy cur) as [c|] eqn:Hcur; try done.
  - intros [= <-] x. split; [by left|]. by intros [?|(c & ? & _)].
  - destruct (by_id !! c) as [it|] eqn:Hc;
      [rewrite (getitem_Some _ _ _ Hc)|rewrite (getitem_None _ _ Hc)];
      run_outcome; [|done].
    intros Hrun x. rewrite (IH _ _ Hrun x), elem_of_union, elem_of_singleton.
    split.
    + intros [[?| ->]|(p & Hp & Hch)]; [by left| |].
      * right. exists c. split; [done|]. constructor.
      * right. exists c. split; [done|]. by econstructor.
    + intros [?|(c' & [= <-] & Hch)]; [by auto|].
      apply on_chain_inv in Hch as [-> |(it' & p & Hit & Hp & Hch)]; [by auto|].
      right. exists p. rewrite Hc in Hit. by injection Hit as <-.
  - intros [= <-] x. split; [by left|]. by intros [?|(c & ? & _)].
Qed.

(** The loop never returns from inside a set of ids that the parent
    references do not leave. *)
Lemma climb_trapped by_id (trap : Z → Prop) :
  (∀ c, trap c →
     c ≠ 0 ∧ ∃ (it : item) p,
       by_id !! c = Some it ∧ parent_id it = Some p ∧ trap p) →
  ∀ fuel c expanded, trap c → climb fuel by_id (Some c) expanded = OutOfFuel.
Proof.
  intros Htrap fuel. induction fuel as [|fuel IH]; intros c expanded Hc;
    destruct (Htrap c Hc) as (Hnz & it & p & Hit & Hp & Hin);
    rewrite climb_unfold, (when_truthy_nonzero c Hnz); [done|].
  rewrite (getitem_Some _ _ _ Hit). run_outcome.
  rewrite Hp. by apply IH.
Qed.

End climb.

(** ** Termination and the expanded set *)

Section expansion.

Variable reverse : string → option string.

Lemma climb_reaches_root fuel (by_id : gmap Z item) cur expanded :
  returned (climb fuel by_id cur expanded) = true → reaches_root by_id cur.
Proof.
  revert cur expanded.
  induction fuel as [|fuel IH]; intros cur expanded; rewrite climb_unfold;
    destruct (when_truthy cur) as [c|] eqn:Hcur; try done;
    try (intros _; by apply reaches_root_here).
  destruct (by_id !! c) as [it|] eqn:Hc;
    [rewrite (getitem_Some _ _ _ Hc)|rewrite (getitem_None _ _ Hc)];
    run_outcome; [|done].
  intros Hrun%IH. by eapply reaches_root_up.
Qed.

(** A test that can be run: every entry climbs to a root within as many steps
    as there are entries. *)
Lemma parents_end_check (items : list item) :
  forallb (λ it : item,
             returned (climb (length items) (index_by_id items)
                         (Some (id it)) ∅)) items = true →
  parents_end items.
Proof.
  intros Hall it Hit. rewrite forallb_forall in Hall.
  eapply climb_reaches_root, Hall. by apply list_elem_of_In.
Qed.

Lemma find_active_is_item cur (items : list item) a :
  find_active cur items = Some a → ∃ it : item, it ∈ items ∧ id it = a.
Proof.
  unfold find_active. pose proof (scan_fold cur items) as Hscan.
  destruct (foldl (scan cur) (None, 0%nat) items) as [[a'|] m]; [|done].
  destruct Hscan as (l1 & it & l2 & -> & <- & _). intros [= <-].
  exists it. split; [|done]. apply elem_of_app. right. by left.
Qed.

(** The chain of the active entry ends when the chain of every entry does. *)
Lemma parents_end_active cur (items : list item) :
  parents_end items →
  reaches_root (index_by_id items) (find_active cur items).
Proof.
  intros Hends. destruct (find_active cur items) as [a|] eqn:Hactive.
  - apply find_active_is_item in Hactive as (it & Hit & <-). by apply Hends.
  - by apply reaches_root_here.
Qed.

(** Line 119 returns: every root id is a key of [by_id]. *)
Lemma root_items_returns (rows : list row) :
  ∃ vs, omap_list (getitem (index_by_id (annotate reverse <$> rows)))
          (assemble (annotate reverse <$> rows)).2 = Returns vs.
Proof.
  apply omap_getitem_total. rewrite assemble_roots. apply Forall_forall.
  intros k (r & -> & [_ Hr]%list_elem_of_filter)%list_elem_of_fmap.
  apply (index_by_id_is_Some _ (annotate reverse r)).
  by apply list_elem_of_fmap_2.
Qed.

(** Conversely, a run that returns has found the end of that chain. *)
Lemma draw_menu_rows_returns_only_if fuel request menu_name rows r :
  draw_menu_rows reverse fuel request menu_name rows = Returns r →
  reaches_root (index_by_id (annotate reverse <$> rows))
    (find_active (_normalize_path (getattr_path request))
       (annotate reverse <$> rows)).
Proof.
  destruct (decide (rows = [])) as [-> |Hne].
  { intros _. by apply reaches_root_here. }
  rewrite draw_menu_rows_unfold by done. cbv zeta.
  destruct (truthy (find_active _ _)) eqn:Htruthy.
  - destruct (climb _ _ _ _) as [e| |] eqn:Hclimb; try done.
    intros _. eapply climb_reaches_root. by rewrite Hclimb.
  - intros _. apply reaches_root_here. unfold when_truthy. by rewrite Htruthy.
Qed.

End expansion.

(** ** Runs on the fixture *)

Lemma fixture_parents_end : parents_end (annotate Urls.reverse <$> Fixture.rows).
Proof. apply parents_end_check. vm_compute. reflexivity. Defined.

Lemma sibling_order_witness :
  ∃ mc,
    draw_menu_rows Urls.reverse 6 (Some {| path := "/blog/" |}) "main_menu"
      Fixture.rows
    = Returns (render_to_string "tree_menu/menu.html" mc)
    ∧ (λ x : item, id x) <$> root_items mc = [1; 2; 3; 4]
    ∧ children_map mc !!! 2 = [5].
Proof.
  eexists. split; [reflexivity|].
  edestruct (sibling_order Urls.reverse 6 (Some {| path := "/blog/" |})
               "main_menu" Fixture.rows) as [(_ & _ & Hroots & _) Hkids].
  { apply (bool_decide_unpack _). vm_compute. reflexivity. }
  { reflexivity. }
  split; [exact Hroots|]. exact (proj2 (proj2 (Hkids 2))).
Defined.

Lemma odd_rows :
  menu_item_rows Fixture.odd_db "self_parent" = [Fixture.plain 1 (Some 1) "/a/"]
  ∧ menu_item_rows Fixture.odd_db "two_cycle"
    = [Fixture.plain 2 (Some 3) "/a/"; Fixture.plain 3 (Some 2) "/b/"]
  ∧ menu_item_rows Fixture.odd_db "stray_parent"
    = [Fixture.plain 4 (Some 9) "/a/"]
  ∧ menu_item_rows Fixture.odd_db "zero_id" = [Fixture.plain 0 None "/a/"].
Proof. by vm_compute. Qed.

(** An entry that is its own parent and matches the current path: the climb
    never leaves it. An entry whose parent belongs to another menu: the climb
    raises [KeyError] at the parent. *)
Lemma draw_menu_fails :
  (¬ ∃ fuel r,
       (draw_menu Urls.reverse fuel (Fixture.get "/a/") "self_parent"
          Fixture.odd_conn).1 = Returns r)
  ∧ (draw_menu Urls.reverse 2 (Fixture.get "/a/") "stray_parent"
       Fixture.odd_conn).1 = Raises (KeyError 9).
Proof.
  split; [|reflexivity].
  intros (fuel & r & Hrun). rewrite draw_menu_unfold in Hrun.
  cbn [fst Fixture.odd_conn data] in Hrun.
  rewrite (proj1 odd_rows) in Hrun.
  rewrite draw_menu_rows_unfold in Hrun by done. cbv zeta in Hrun.
  change (find_active _ _) with (Some 1) in Hrun.
  change (truthy (Some 1)) with true in Hrun. cbv iota in Hrun.
  rewrite (climb_trapped _ (λ c, c = 1)) in Hrun; [done| |done].
  intros c ->. split; [done|].
  exists (annotate Urls.reverse (Fixture.plain 1 (Some 1) "/a/")), 1.
  by split_and!.
Qed.

(** * Further properties of the tag *)

(** ** The view model *)

Section view_model.

Variable reverse : string → option string.

(** A run that hands a context to the template has gone through every step. *)
Lemma draw_menu_rows_inv fuel request menu_name rows t mc :
  draw_menu_rows reverse fuel request menu_name rows
  = Returns (render_to_string t mc) →
  let items := annotate reverse <$> rows in
  let active := find_active (_normalize_path (getattr_path request)) items in
  rows ≠ []
  ∧ t = "tree_menu/menu.html"
  ∧ ctx_menu_name mc = menu_name
  ∧ ctx_request mc = request
  ∧ items_by_id mc = index_by_id items
  ∧ children_map mc = (assemble items).1
  ∧ active_id mc = active
  ∧ (if truthy active then climb fuel (index_by_id items) active ∅
     else Returns (∅ : gset Z)) = Returns (expanded_ids mc)
  ∧ omap_list (getitem (index_by_id items)) (assemble items).2
    = Returns (root_items mc).
Proof.
  intros Hrun. cbv zeta.
  destruct (decide (rows = [])) as [-> |Hne]; [done|].
  rewrite draw_menu_rows_unfold in Hrun by done. cbv zeta in Hrun.
  destruct (if truthy _ then _ else _) as [expanded| |]; try done.
  destruct (omap_list _ _) as [vs| |]; try done.
  by injection Hrun as <- <-.
Qed.

Lemma index_by_id_dom (items : list item) (k : Z) :
  is_Some (index_by_id items !! k) ↔ k ∈ (λ x : item, id x) <$> items.
Proof.
  split.
  - intros [it [<- Hit]%index_by_id_lookup].
    by apply (list_elem_of_fmap_2 (λ x : item, id x)).
  - intros (it & -> & Hit)%list_elem_of_fmap. by apply index_by_id_is_Some.
Qed.

(** The children dict after the loop, read without a default. *)
Lemma link_fold_lookup (items : list item) (children : gmap Z (list Z))
    (roots : list Z) (p : Z) :
  (foldl link (children, roots) items).1 !! p
  = match filter (λ x : item, is_child_of p x) items with
    | [] => children !! p
    | kids => Some (children !!! p ++ ((λ x : item, id x) <$> kids))
    end.
Proof.
  revert children roots.
  induction items as [|it items IH]; intros children roots; [done|].
  cbn [foldl]. unfold link at 2.
  destruct (when_truthy (parent_id it)) as [q|] eqn:Hq.
  - rewrite IH. destruct (decide (q = p)) as [-> |Hne].
    + rewrite filter_cons_True by done.
      rewrite lookup_total_insert_eq, lookup_insert_eq.
      destruct (filter _ items) as [|x kids]; cbn [fmap list_fmap].
      * done.
      * by rewrite <-app_assoc.
    + rewrite filter_cons_False.
      2: { unfold is_child_of. rewrite Hq. congruence. }
      by rewrite lookup_total_insert_ne, lookup_insert_ne.
  - rewrite IH, filter_cons_False; [done|].
    unfold is_child_of. by rewrite Hq.
Qed.

Lemma assemble_children_lookup (rows : list row) (p : Z) :
  (assemble (annotate reverse <$> rows)).1 !! p
  = match filter (is_child_of p) rows with
    | [] => None
    | kids => Some (id <$> kids)
    end.
Proof.
  unfold assemble. rewrite link_fold_lookup, lookup_total_empty, lookup_empty.
  rewrite (filter_annotate reverse (is_child_of p)).
  destruct (filter (is_child_of p) rows) as [|r kids]; [done|].
  by rewrite <-(ids_annotate reverse (r :: kids)).
Qed.

(** X1: the id index handed to the template has exactly the ids of the
    delivered rows as keys; the entry under a key carries that id and is one
    of the annotated rows; with pairwise distinct ids every row is found
    under its id. *)
Theorem items_by_id_spec fuel request menu_name rows t mc :
  draw_menu_rows reverse fuel request menu_name rows
  = Returns (render_to_string t mc) →
  (∀ k, is_Some (items_by_id mc !! k) ↔ k ∈ id <$> rows)
  ∧ (∀ k (it : item), items_by_id mc !! k = Some it →
       id it = k ∧ it ∈ annotate reverse <$> rows)
  ∧ (NoDup (id <$> rows) →
     ∀ r, r ∈ rows → items_by_id mc !! id r = Some (annotate reverse r)).
Proof.
  intros (_ & _ & _ & _ & -> & _)%draw_menu_rows_inv. split_and!.
  - intros k. by rewrite index_by_id_dom, ids_annotate.
  - intros k it. apply index_by_id_lookup.
  - intros Hnd r Hr.
    apply (index_by_id_NoDup _ (annotate reverse r)).
    + by rewrite ids_annotate.
    + by apply list_elem_of_fmap_2.
Qed.

(** X3: every id the view model lists, as a root or as a child of some key,
    is a key of the id index: the template never looks up an id in vain. *)
Theorem listed_ids_are_keys fuel request menu_name rows t mc :
  draw_menu_rows reverse fuel request menu_name rows
  = Returns (render_to_string t mc) →
  (∀ it : item, it ∈ root_items mc →
     get_item (a_dict (items_by_id mc)) (id it) = Some it)
  ∧ (∀ p l k, get_item (a_dict (children_map mc)) p = Some l → k ∈ l →
       ∃ it : item, get_item (a_dict (items_by_id mc)) k = Some it ∧ id it = k).
Proof.
  intros (_ & _ & _ & _ & Hby & Hch & _ & _ & Hroots)%draw_menu_rows_inv.
  cbn [get_item]. rewrite Hby, Hch. split.
  - intros it Hit. apply omap_getitem_returns in Hroots.
    apply list_elem_of_lookup in Hit as [i Hi].
    destruct (Forall2_lookup_r _ _ _ _ _ Hroots Hi) as (k & _ & Hk).
    by destruct (index_by_id_lookup _ _ _ Hk) as [<- _].
  - intros p l k. rewrite assemble_children_lookup.
    intros Hl Hk.
    assert (l = id <$> filter (is_child_of p) rows) as ->.
    { destruct (filter (is_child_of p) rows); [done|by injection Hl]. }
    apply list_elem_of_fmap in Hk as (r' & -> & [_ Hr']%list_elem_of_filter).
    destruct (index_by_id_is_Some (annotate reverse <$> rows)
                (annotate reverse r')) as [it Hit].
    { by apply list_elem_of_fmap_2. }
    exists it. split; [done|]. by apply index_by_id_lookup in Hit as [? _].
Qed.

End view_model.

(** ** The climb, step by step *)

Section climb_steps.

Implicit Types (by_id : gmap Z item) (cur : option Z) (expanded : gset Z).

Lemma when_truthy_inv cur c : when_truthy cur = Some c → cur = Some c ∧ c ≠ 0.
Proof.
  unfold when_truthy. destruct cur as [c'|]; cbn; [|done].
  unfold truthy, int_truthy. destruct (Z.eqb_spec c' 0); cbn; [done|].
  by intros [= ->].
Qed.

(** What a run of the loop that returns has put into the set: what was there,
    the id it started from, and with each id the parent of its entry. *)
Lemma climb_closed fuel by_id cur expanded e :
  climb fuel by_id cur expanded = Returns e →
  expanded ⊆ e
  ∧ (∀ c, when_truthy cur = Some c → c ∈ e)
  ∧ ∀ x, x ∈ e →
      x ∈ expanded
      ∨ ∃ it : item,
          by_id !! x = Some it
          ∧ (when_truthy (parent_id it) = None
             ∨ ∃ p, when_truthy (parent_id it) = Some p ∧ p ∈ e).
Proof.
  revert cur expanded.
  induction fuel as [|fuel IH]; intros cur expanded; rewrite climb_unfold;
    destruct (when_truthy cur) as [c|] eqn:Hcur; try done;
    try (intros [= <-]; split_and!; [done|done|by left]).
  destruct (by_id !! c) as [it|] eqn:Hc;
    [rewrite (getitem_Some _ _ _ Hc)|rewrite (getitem_None _ _ Hc)];
    run_outcome; [|done].
  intros Hrun. destruct (IH _ _ Hrun) as (Hsub & Hstart & Hstep).
  split_and!.
  - intros x Hx. apply Hsub, elem_of_union. by left.
  - intros c' [= <-]. apply Hsub, elem_of_union. right. by apply elem_of_singleton.
  - intros x Hx. destruct (Hstep x Hx) as [[?| ->%elem_of_singleton]%elem_of_union|?];
      [by left| |by right].
    right. exists it. split; [done|].
    destruct (when_truthy (parent_id it)) as [p|] eqn:Hp; [|by left].
    right. exists p. split; [done|]. by apply Hstart.
Qed.

(** A run of the loop that raises has met, on the chain of [cur], an id that
    is no key of [by_id]. *)
Lemma climb_raises fuel by_id cur expanded err :
  climb fuel by_id cur expanded = Raises err →
  ∃ c k, when_truthy cur = Some c ∧ err = KeyError k
         ∧ on_chain by_id c k ∧ by_id !! k = None.
Proof.
  revert cur expanded.
  induction fuel as [|fuel IH]; intros cur expanded; rewrite climb_unfold;
    destruct (when_truthy cur) as [c|] eqn:Hcur; try done.
  destruct (by_id !! c) as [it|] eqn:Hc;
    [rewrite (getitem_Some _ _ _ Hc)|rewrite (getitem_None _ _ Hc)];
    run_outcome.
  - intros (p & k & Hp & -> & Hch & Hk)%IH.
    exists c, k. split_and!; try done. by econstructor.
  - intros [= <-]. exists c, c. split_and!; try done. constructor.
Qed.

(** The last step of a chain that leaves its origin. *)
Lemma on_chain_last by_id a k :
  on_chain by_id a k → k ≠ a →
  ∃ x (it : item),
    on_chain by_id a x ∧ by_id !! x = Some it
    ∧ when_truthy (parent_id it) = Some k.
Proof.
  induction 1 as [a|a it p x Hit Hp Hch IH]; [done|]. intros _.
  destruct (decide (x = p)) as [-> |Hne].
  - exists a, it. split_and!; [constructor|done..].
  - destruct (IH Hne) as (y & it' & Hy & Hit' & Hp').
    exists y, it'. split_and!; [|done..]. by econstructor.
Qed.

(** *** Counting the steps *)

Lemma reaches_root_chain_length by_id cur :
  reaches_root by_id cur → ∃ n, chain_length by_id cur n.
Proof.
  induction 1 as [cur Hcur|cur c it Hcur Hc _ [n IH]].
  - exists 0%nat. by constructor.
  - exists (S n). by econstructor.
Qed.

Lemma chain_length_det by_id cur n m :
  chain_length by_id cur n → chain_length by_id cur m → n = m.
Proof.
  intros Hn. revert m.
  induction Hn as [cur Hcur|cur c it n Hcur Hc _ IH];
    intros m Hm; destruct Hm as [cur Hcur'|cur c' it' m Hcur' Hc' Hm];
    try congruence.
  rewrite Hcur in Hcur'. injection Hcur' as <-.
  rewrite Hc in Hc'. injection Hc' as <-. f_equal. by apply IH.
Qed.

Lemma chain_length_climb by_id cur n :
  chain_length by_id cur n →
  ∀ fuel expanded, (n ≤ fuel)%nat →
    ∃ e, climb fuel by_id cur expanded = Returns e.
Proof.
  induction 1 as [cur Hcur|cur c it n Hcur Hc _ IH]; intros fuel expanded Hfuel.
  - rewrite climb_unfold, Hcur. by eexists.
  - destruct fuel as [|fuel]; [lia|].
    rewrite climb_unfold, Hcur, (getitem_Some _ _ _ Hc). run_outcome.
    apply IH. lia.
Qed.

(** The ids on a chain that ends are pairwise distinct keys of [by_id]. *)
Lemma chain_length_ids by_id cur n :
  chain_length by_id cur n →
  ∃ ids : gset Z,
    size ids = n ∧ ids ⊆ dom by_id
    ∧ ∀ x, x ∈ ids → ∃ m, (m ≤ n)%nat ∧ chain_length by_id (Some x) m.
Proof.
  induction 1 as [cur Hcur|cur c it n Hcur Hc Hn (ids & Hsize & Hdom & Hids)].
  - exists ∅. split_and!; [done|set_solver|set_solver].
  - apply when_truthy_inv in Hcur as [-> Hnz].
    assert (chain_length by_id (Some c) (S n)) as Hc'.
    { econstructor; [by apply when_truthy_nonzero|done..]. }
    assert (c ∉ ids) as Hfresh.
    { intros (m & Hm & Hcm)%Hids.
      pose proof (chain_length_det _ _ _ _ Hc' Hcm). lia. }
    exists ({[c]} ∪ ids). split_and!.
    + rewrite size_union by set_solver. rewrite size_singleton. lia.
    + apply union_subseteq. split; [|done].
      apply singleton_subseteq_l, elem_of_dom. by eexists.
    + intros x [->%elem_of_singleton|Hx]%elem_of_union; [by exists (S n)|].
      destruct (Hids x Hx) as (m & Hm & Hxm). exists m. split; [lia|done].
Qed.

Lemma index_by_id_size (items : list item) :
  (size (index_by_id items) ≤ length items)%nat.
Proof.
  induction items as [|x items IH] using rev_ind; [done|].
  rewrite index_by_id_snoc, length_app, map_size_insert.
  change (length [x]) with 1%nat. unfold Datatypes.id.
  destruct (index_by_id items !! id x); lia.
Qed.

(** A chain that ends inside the index of a list ends within as many steps as
    the list has items. *)
Lemma climb_enough (items : list item) cur fuel expanded :
  reaches_root (index_by_id items) cur → (length items ≤ fuel)%nat →
  ∃ e, climb fuel (index_by_id items) cur expanded = Returns e.
Proof.
  intros [n Hn]%reaches_root_chain_length Hfuel.
  apply (chain_length_climb _ _ n); [done|].
  destruct (chain_length_ids _ _ _ Hn) as (ids & <- & Hdom & _).
  apply subseteq_size in Hdom. rewrite size_dom in Hdom.
  pose proof (index_by_id_size items). lia.
Qed.

End climb_steps.

(** ** How [draw_menu] ends *)

Section endings.

Variable reverse : string → option string.

(** The steps after the climb on a list that is not empty. *)
Lemma draw_menu_rows_after_climb fuel request menu_name rows e :
  rows ≠ [] →
  (if truthy (find_active (_normalize_path (getattr_path request))
                (annotate reverse <$> rows))
   then climb fuel (index_by_id (annotate reverse <$> rows))
          (find_active (_normalize_path (getattr_path request))
             (annotate reverse <$> rows)) ∅
   else Returns (∅ : gset Z)) = Returns e →
  ∃ mc, draw_menu_rows reverse fuel request menu_name rows
        = Returns (render_to_string "tree_menu/menu.html" mc)
        ∧ expanded_ids mc = e.
Proof.
  intros Hne He. destruct (root_items_returns reverse rows) as [vs Hvs].
  rewrite draw_menu_rows_unfold by done. cbv zeta.
  rewrite He. run_outcome. rewrite Hvs. run_outcome. by eexists.
Qed.

(** With the chain of the active entry ending, as many iterations as there
    are rows are enough. *)
Lemma draw_menu_rows_enough fuel request menu_name rows :
  reaches_root (index_by_id (annotate reverse <$> rows))
    (find_active (_normalize_path (getattr_path request))
       (annotate reverse <$> rows)) →
  (length rows ≤ fuel)%nat →
  returned (draw_menu_rows reverse fuel request menu_name rows) = true.
Proof.
  intros Hends Hfuel. destruct (decide (rows = [])) as [-> |Hne]; [done|].
  destruct (climb_enough _ _ fuel ∅ Hends) as [e He].
  { by rewrite length_fmap. }
  destruct (draw_menu_rows_after_climb fuel request menu_name rows
              (if truthy (find_active (_normalize_path (getattr_path request))
                            (annotate reverse <$> rows)) then e else ∅) Hne)
    as (mc & -> & _); [|done].
  destruct (truthy _); [done|done].
Qed.

(** X4: every id in the expanded set of the view model is the id of a
    delivered entry, and that entry is displayed: it is one of the roots or
    it is listed among the children of an id that is itself expanded. An
    active id other than 0 is in the expanded set. *)
Theorem expanded_ids_displayed fuel request menu_name rows t mc :
  draw_menu_rows reverse fuel request menu_name rows
  = Returns (render_to_string t mc) →
  (∀ x, x ∈ expanded_ids mc →
     x ∈ id <$> rows
     ∧ (x ∈ (λ it : item, id it) <$> root_items mc
        ∨ ∃ p, p ∈ expanded_ids mc ∧ x ∈ children_map mc !!! p))
  ∧ (∀ a, active_id mc = Some a → a ≠ 0 → a ∈ expanded_ids mc).
Proof.
  intros (_ & _ & _ & _ & _ & Hch & Hact & Hexp & Hroots)%draw_menu_rows_inv.
  rewrite Hch, Hact. clear Hch Hact.
  apply omap_getitem_returns, root_items_ids in Hroots.
  rewrite assemble_roots in Hroots. rewrite Hroots. clear Hroots.
  destruct (truthy (find_active _ _)) eqn:Htruthy.
  2: { injection Hexp as <-. split; [by intros x ?%elem_of_empty|].
       intros a Ha Hnz. rewrite Ha in Htruthy. cbn in Htruthy.
       unfold truthy, int_truthy in Htruthy. by destruct (Z.eqb_spec a 0). }
  destruct (climb_closed _ _ _ _ _ Hexp) as (_ & Hstart & Hstep). split.
  - intros x Hx. destruct (Hstep x Hx) as [?%elem_of_empty|(it & Hit & Hup)]; [done|].
    apply index_by_id_lookup in Hit as [<- (r & -> & Hr)%list_elem_of_fmap].
    cbn [annotate fields]. split; [by apply list_elem_of_fmap_2|].
    destruct Hup as [Hroot|(p & Hp & Hpe)].
    + left. apply list_elem_of_fmap_2, list_elem_of_filter. by split.
    + right. exists p. split; [done|]. rewrite assemble_children.
      apply list_elem_of_fmap_2, list_elem_of_filter. by split.
  - intros a Ha Hnz. apply Hstart. rewrite Ha. by apply when_truthy_nonzero.
Qed.

(** X5: when the parent chain of the active entry ends inside the list, the
    loop is through within as many iterations as there are rows, and the
    answer is the same for every larger number of iterations. *)
Theorem draw_menu_rows_bounded request menu_name rows :
  reaches_root (index_by_id (annotate reverse <$> rows))
    (find_active (_normalize_path (getattr_path request))
       (annotate reverse <$> rows)) →
  ∃ r, ∀ fuel, (length rows ≤ fuel)%nat →
    draw_menu_rows reverse fuel request menu_name rows = Returns r.
Proof.
  intros Hends. destruct (decide (rows = [])) as [-> |Hne].
  { by exists Blank. }
  destruct (climb_enough _ _ (length rows) ∅ Hends) as [e He].
  { by rewrite length_fmap. }
  destruct (root_items_returns reverse rows) as [vs Hvs].
  eexists. intros fuel Hfuel.
  destruct (climb_enough _ _ fuel ∅ Hends) as [e' He'].
  { by rewrite length_fmap. }
  assert (e' = e) as ->.
  { apply set_eq. intros x.
    by rewrite (climb_collects _ _ _ _ _ He x), (climb_collects _ _ _ _ _ He' x). }
  rewrite draw_menu_rows_unfold by done. cbv zeta.
  assert ((if truthy (find_active (_normalize_path (getattr_path request))
                        (annotate reverse <$> rows))
           then climb fuel (index_by_id (annotate reverse <$> rows))
                  (find_active (_normalize_path (getattr_path request))
                     (annotate reverse <$> rows)) ∅
           else Returns (∅ : gset Z))
          = Returns (if truthy (find_active
                                  (_normalize_path (getattr_path request))
                                  (annotate reverse <$> rows))
                     then e else ∅)) as ->.
  { by destruct (truthy _). }
  run_outcome. rewrite Hvs. run_outcome. reflexivity.
Qed.

(** X6: a loop that is not through after as many iterations as there are
    rows is never through. *)
Theorem draw_menu_rows_out_of_fuel request menu_name rows :
  draw_menu_rows reverse (length rows) request menu_name rows = OutOfFuel →
  ∀ fuel, returned (draw_menu_rows reverse fuel request menu_name rows) = false.
Proof.
  intros Hout fuel.
  destruct (draw_menu_rows reverse fuel request menu_name rows) as [r| |] eqn:Hrun;
    [|done..].
  apply draw_menu_rows_returns_only_if in Hrun.
  pose proof (draw_menu_rows_enough (length rows) request menu_name rows Hrun
                (le_n _)) as Hret.
  by rewrite Hout in Hret.
Qed.

(** X7: the only exception [draw_menu] raises is the [KeyError] of the climb,
    and it raises it for an id that lies on the parent chain of the active
    entry, is the parent id of a delivered entry and is the id of none. *)
Theorem draw_menu_rows_raises fuel request menu_name rows err :
  draw_menu_rows reverse fuel request menu_name rows = Raises err →
  let by_id := index_by_id (annotate reverse <$> rows) in
  ∃ a k,
    find_active (_normalize_path (getattr_path request))
      (annotate reverse <$> rows) = Some a
    ∧ a ≠ 0 ∧ err = KeyError k ∧ on_chain by_id a k
    ∧ (k ∉ id <$> rows)
    ∧ ∃ r, r ∈ rows ∧ when_truthy (parent_id r) = Some k.
Proof.
  cbv zeta. destruct (decide (rows = [])) as [-> |Hne]; [done|].
  destruct (root_items_returns reverse rows) as [vs Hvs].
  rewrite draw_menu_rows_unfold by done. cbv zeta.
  destruct (truthy (find_active _ _)) eqn:Htruthy.
  2: { run_outcome. rewrite Hvs. by run_outcome. }
  destruct (climb _ _ _ _) as [e|err'|] eqn:Hclimb; run_outcome; [|intros [= ->]|done].
  { rewrite Hvs. by run_outcome. }
  apply climb_raises in Hclimb as (c & k & Hc & -> & Hchain & Hk).
  apply when_truthy_inv in Hc as [Hactive Hnz].
  exists c, k. split_and!; try done.
  - intros Hin. rewrite <-(ids_annotate reverse), <-index_by_id_dom in Hin.
    rewrite Hk in Hin. by destruct Hin.
  - destruct (on_chain_last _ _ _ Hchain) as (x & it & _ & Hit & Hp).
    { intros ->. apply find_active_is_item in Hactive as (it & Hit & <-).
      apply index_by_id_is_Some in Hit. rewrite Hk in Hit. by destruct Hit. }
    apply index_by_id_lookup in Hit as [_ (r & -> & Hr)%list_elem_of_fmap].
    by exists r.
Qed.

(** X8: when the active entry lies in a set of ids that the parent references
    of its entries do not leave, as on a cycle of parents, no number of
    iterations lets [draw_menu] return or raise. *)
Theorem draw_menu_rows_trapped request menu_name rows (trap : Z → Prop) a :
  let by_id := index_by_id (annotate reverse <$> rows) in
  find_active (_normalize_path (getattr_path request))
    (annotate reverse <$> rows) = Some a →
  trap a →
  (∀ c, trap c →
     c ≠ 0 ∧ ∃ (it : item) p,
       by_id !! c = Some it ∧ parent_id it = Some p ∧ trap p) →
  ∀ fuel, draw_menu_rows reverse fuel request menu_name rows = OutOfFuel.
Proof.
  cbv zeta. intros Hactive Ha Htrap fuel.
  destruct (decide (rows = [])) as [-> |Hne]; [done|].
  rewrite draw_menu_rows_unfold by done. cbv zeta. rewrite Hactive.
  destruct (Htrap a Ha) as [Hnz _].
  replace (truthy (Some a)) with true.
  2: { cbn. unfold truthy, int_truthy. by destruct (Z.eqb_spec a 0). }
  by rewrite (climb_trapped _ trap Htrap).
Qed.

End endings.

(** ** Which entry is active *)

Section which_active.

Variable reverse : string → option string.

Implicit Types (it x : item) (s p : string).

Lemma startswith_refl s : startswith s s = true.
Proof. induction s as [|c s IH]; [done|]. cbn. by rewrite Ascii.eqb_refl. Qed.

Lemma startswith_len s p : startswith s p = true → (len p ≤ len s)%nat.
Proof.
  revert s. induction p as [|c p IH]; intros s; cbn; [lia|].
  destruct s as [|d s]; [discriminate|].
  intros [_ Hp]%andb_true_iff. apply IH in Hp. unfold len in *. cbn. lia.
Qed.

(** A string with one of the prefixes of line 27 is no absolute path. *)
Lemma untouched_not_absolute s :
  startswith_any s untouched = true → startswith s "/" = false.
Proof.
  destruct s as [|c s]; [done|]. cbn [startswith].
  destruct (Ascii.eqb_spec c "/") as [-> |_]; [|done]. done.
Qed.

(** What the scan selects, when it selects. *)
Lemma find_active_Some cur (items : list item) a :
  find_active cur items = Some a →
  ∃ l1 it l2,
    items = l1 ++ it :: l2 ∧ id it = a ∧ candidate cur it
    ∧ (∀ x, x ∈ l1 → candidate cur x →
         (len (norm_url x) < len (norm_url it))%nat)
    ∧ (∀ x, x ∈ l2 → candidate cur x →
         (len (norm_url x) ≤ len (norm_url it))%nat).
Proof.
  unfold find_active. pose proof (scan_fold cur items) as Hscan.
  destruct (foldl (scan cur) (None, 0%nat) items) as [[a'|] m]; [|done].
  intros [= <-]. destruct Hscan as (l1 & it & l2 & ? & ? & _ & ? & ? & ?).
  by exists l1, it, l2.
Qed.

Lemma find_active_None cur (items : list item) :
  find_active cur items = None → ∀ it, it ∈ items → ¬ candidate cur it.
Proof.
  unfold find_active. pose proof (scan_fold cur items) as Hscan.
  destruct (foldl (scan cur) (None, 0%nat) items) as [[a'|] m]; [done|].
  intros _. by destruct Hscan.
Qed.

(** X9: when the normalized URL of some entry is the normalized current path,
    an absolute one, the active entry is the first entry of the list whose
    normalized URL is the current path: a longer match does not exist and a
    shorter one does not win. *)
Theorem exact_match_wins request rows r :
  let cur := _normalize_path (getattr_path request) in
  r ∈ rows →
  startswith cur "/" = true →
  norm_url (annotate reverse r) = cur →
  ∃ l1 it l2,
    annotate reverse <$> rows = l1 ++ it :: l2
    ∧ find_active cur (annotate reverse <$> rows) = Some (id it)
    ∧ norm_url it = cur
    ∧ ∀ x, x ∈ l1 → norm_url x ≠ cur.
Proof.
  intros cur Hr Habs Hnorm.
  assert (∀ x, norm_url x = cur → candidate cur x) as Hexact.
  { intros x Hx. unfold candidate. rewrite Hx.
    split_and!; [done|done|apply startswith_refl]. }
  destruct (find_active cur (annotate reverse <$> rows)) as [a|] eqn:Hactive.
  2: { exfalso. eapply find_active_None; [done| |by apply Hexact].
       by apply list_elem_of_fmap_2. }
  destruct (find_active_Some _ _ _ Hactive)
    as (l1 & it & l2 & Hitems & <- & Hit & Hl1 & Hl2).
  assert (len (norm_url it) ≤ len cur)%nat as Hle.
  { apply startswith_len. by destruct Hit as (_ & _ & ?). }
  assert (∀ x, x ∈ l1 → norm_url x ≠ cur) as Hbefore.
  { intros x Hx Hxcur. specialize (Hl1 x Hx (Hexact x Hxcur)).
    rewrite Hxcur in Hl1. lia. }
  exists l1, it, l2. split_and!; try done.
  assert (annotate reverse r ∈ l1 ++ it :: l2) as Hin.
  { rewrite <-Hitems. by apply list_elem_of_fmap_2. }
  apply elem_of_app in Hin as [Hin|[<- |Hin]%elem_of_cons]; [|done|].
  { by destruct (Hbefore _ Hin). }
  specialize (Hl2 _ Hin (Hexact _ Hnorm)). rewrite Hnorm in Hl2.
  destruct Hit as (_ & _ & Hpre).
  apply (startswith_same_len cur); [done|apply startswith_refl|lia].
Qed.

(** X10: on the current path "/" the active entry, if there is one, has the
    normalized URL "/"; on any other current path it has another one. *)
Theorem root_entry_only_at_root request rows a :
  let cur := _normalize_path (getattr_path request) in
  find_active cur (annotate reverse <$> rows) = Some a →
  ∃ it, it ∈ annotate reverse <$> rows ∧ id it = a
        ∧ (norm_url it = "/" ↔ cur = "/").
Proof.
  intros cur (l1 & it & l2 & Hitems & <- & Hit & _)%find_active_Some.
  exists it. split_and!; [rewrite Hitems; set_solver|done|].
  destruct Hit as (Habs & Hroot & Hpre). split; [done|].
  intros Hcur. rewrite Hcur in Hpre.
  apply startswith_cons_inv in Habs as [s Hs]. rewrite Hs in Hpre |- *.
  cbn in Hpre. by destruct s.
Qed.

(** X11: an entry whose resolved URL starts with "http://", "https://" or "#",
    as that of an entry with an unresolvable named route does, is never the
    active entry, the ids being pairwise distinct. *)
Theorem untouched_never_active request rows r :
  let cur := _normalize_path (getattr_path request) in
  NoDup (id <$> rows) →
  r ∈ rows →
  startswith_any (_resolve_url reverse (named_url r) (url r)) untouched = true →
  find_active cur (annotate reverse <$> rows) ≠ Some (id r).
Proof.
  intros cur Hnd Hr Hun (l1 & it & l2 & Hitems & Hid & Hit & _)%find_active_Some.
  assert (it = annotate reverse r) as ->.
  { assert (it ∈ annotate reverse <$> rows) as Hin by (rewrite Hitems; set_solver).
    rewrite <-(ids_annotate reverse) in Hnd.
    pose proof (index_by_id_NoDup _ it Hnd Hin) as H1.
    pose proof (index_by_id_NoDup _ (annotate reverse r) Hnd
                  (list_elem_of_fmap_2 _ _ _ Hr)) as H2.
    rewrite Hid in H1. cbn [annotate fields] in H2. rewrite H1 in H2.
    by injection H2. }
  destruct Hit as (Habs & _). cbn [annotate norm_url] in Habs.
  assert (_normalize_path (_resolve_url reverse (named_url r) (url r))
          = _resolve_url reverse (named_url r) (url r)) as Hsame.
  { unfold _normalize_path. rewrite Hun. by destruct (_resolve_url _ _ _). }
  rewrite Hsame, (untouched_not_absolute _ Hun) in Habs. done.
Qed.

End which_active.

(** ** Slashes at the ends of a path *)

Section slashes.

Implicit Types s p q : string.

Lemma startswith_app_inv p s q :
  startswith (p +:+ s) q = true →
  startswith p q = true
  ∨ ∃ q2, q = p +:+ q2 ∧ q2 ≠ "" ∧ startswith s q2 = true.
Proof.
  revert q. induction p as [|c p IH]; intros q.
  - destruct q as [|d q]; [by left|]. intros Hs. right. by exists (String d q).
  - destruct q as [|d q]; [by left|]. cbn [String.append startswith].
    intros [->%Ascii.eqb_eq [Hp|(q2 & -> & Hq2 & Hs)]%IH]%andb_true_iff.
    + left. by rewrite Ascii.eqb_refl.
    + right. by exists q2.
Qed.

Lemma startswith_slash_inv q : q ≠ "" → startswith "/" q = true → q = "/".
Proof.
  destruct q as [|c q]; [done|]. intros _. cbn [startswith].
  intros [<-%Ascii.eqb_eq Hq]%andb_true_iff. by destruct q.
Qed.

(** Appending a slash to a path that does not end with one does not make it
    start with a scheme or a fragment marker. *)
Lemma untouched_app_slash p :
  startswith_any p untouched = false → endswith p "/" = false →
  startswith_any (p +:+ "/") untouched = false.
Proof.
  intros Hun Hend. unfold startswith_any, untouched in *. cbn [existsb] in *.
  apply orb_false_iff in Hun as [H1 [H2 [H3 _]%orb_false_iff]%orb_false_iff].
  assert (∀ q, q ∈ untouched → startswith p q = false →
               startswith (p +:+ "/") q = false) as Hstep.
  { intros q Hq Hpq. destruct (startswith (p +:+ "/") q) eqn:Happ; [|done].
    apply startswith_app_inv in Happ as [Hp|(q2 & Hq2 & Hne & Hs)]; [congruence|].
    apply startswith_slash_inv in Hs as ->; [|done].
    pose proof (endswith_app p "/") as Hq'. rewrite <-Hq2 in Hq'.
    unfold untouched in Hq.
    repeat (apply elem_of_cons in Hq as [-> |Hq]); try done.
    - assert (p = "http:/") as ->; [|done].
      clear -Hq2. repeat (destruct p as [|? p]; try done). by injection Hq2 as <- <- <- <- <- <-.
    - assert (p = "https:/") as ->; [|done].
      clear -Hq2. repeat (destruct p as [|? p]; try done). by injection Hq2 as <- <- <- <- <- <- <-.
    - by apply elem_of_nil in Hq. }
  rewrite !Hstep; [done|unfold untouched; set_solver..|done| |done| |done];
    unfold untouched; set_solver.
Qed.

(** X12: a slash more or less at either end of a path makes no difference to
    the menu: a path without a leading slash normalizes like the path with
    one, and a path without a trailing slash like the path with one. Paths
    that are empty or start with a scheme or a fragment marker are apart. *)
Theorem normalize_path_slashes p :
  p ≠ "" → startswith_any p untouched = false →
  (startswith p "/" = false → _normalize_path ("/" +:+ p) = _normalize_path p)
  ∧ (endswith p "/" = false → _normalize_path (p +:+ "/") = _normalize_path p).
Proof.
  intros Hne Hun. destruct p as [|c p]; [done|]. split.
  - intros Habs. unfold _normalize_path at 2.
    cbn [truthy str_truthy negb]. rewrite Hun, Habs. cbn [negb].
    change ("/" +:+ String c p) with (String "/" (String c p)).
    unfold _normalize_path. cbn [truthy str_truthy negb].
    replace (startswith_any (String "/" (String c p)) untouched) with false by done.
    by replace (startswith (String "/" (String c p)) "/") with true by done.
  - intros Hend.
    pose proof (untouched_app_slash _ Hun Hend) as Hun'.
    change (String c p +:+ "/") with (String c (p +:+ "/")) in *.
    unfold _normalize_path. cbn [truthy str_truthy negb]. rewrite Hun, Hun'.
    replace (startswith (String c (p +:+ "/")) "/")
      with (startswith (String c p) "/") by (cbn; by destruct (Ascii.eqb c "/")).
    set (p1 := if negb (startswith (String c p) "/")
               then "/" +:+ String c p else String c p).
    assert ((if negb (startswith (String c p) "/")
             then "/" +:+ String c (p +:+ "/") else String c (p +:+ "/"))
            = p1 +:+ "/") as ->.
    { subst p1. by destruct (startswith (String c p) "/"). }
    assert (String.eqb p1 "/" = false ∧ endswith p1 "/" = false) as [Hp1 Hp1'].
    { subst p1. destruct (startswith (String c p) "/"); cbn [negb].
      - split; [|done]. apply String.eqb_neq. intros Heq.
        by rewrite Heq in Hend.
      - split; [done|]. rewrite endswith_unfold.
        by replace (String.eqb ("/" +:+ String c p) "/") with false by done. }
    rewrite Hp1, Hp1', endswith_app. cbn [negb andb].
    by rewrite andb_false_r.
Qed.

End slashes.

(** ** The store, the query and [clean] *)

Section store.

Variable reverse : string → option string.

Lemma menu__name_spec t menu_name mi :
  menu__name t menu_name mi = true ↔
  ∃ m, m ∈ menus t ∧ menu_pk m = menu_id mi ∧ name m = menu_name.
Proof.
  unfold menu__name. rewrite existsb_exists. split.
  - intros (m & Hm%list_elem_of_In & [Hpk%Z.eqb_eq Hname%String.eqb_eq]%andb_true_iff).
    by exists m.
  - intros (m & Hm%list_elem_of_In & Hpk & Hname). exists m. split; [done|].
    apply andb_true_iff. split; [by apply Z.eqb_eq|by apply String.eqb_eq].
Qed.

(** The rows the query delivers are those of the items joined to a menu of
    the given name. *)
Lemma menu_item_rows_elem t menu_name r :
  r ∈ menu_item_rows t menu_name ↔
  ∃ mi, mi ∈ menu_items t ∧ menu__name t menu_name mi = true ∧ r = values mi.
Proof.
  unfold menu_item_rows. rewrite merge_sort_Permutation, list_elem_of_fmap.
  split.
  - intros (mi & -> & [Hjoin Hmi]%list_elem_of_filter). by exists mi.
  - intros (mi & Hmi & Hjoin & ->). exists mi. split; [done|].
    by apply list_elem_of_filter.
Qed.

(** X13: the id index that [draw_menu] hands to the template holds the items
    of the menus with the given name and no item of any other menu. *)
Theorem draw_menu_isolation fuel context menu_name c t mc :
  (draw_menu reverse fuel context menu_name c).1
  = Returns (render_to_string t mc) →
  ∀ k, is_Some (get_item (a_dict (items_by_id mc)) k) ↔
       ∃ mi, mi ∈ menu_items (data c) ∧ pk mi = k
             ∧ ∃ m, m ∈ menus (data c)
                    ∧ menu_pk m = menu_id mi ∧ name m = menu_name.
Proof.
  rewrite draw_menu_unfold. cbn [fst get_item].
  intros (_ & _ & _ & _ & -> & _)%draw_menu_rows_inv k.
  rewrite index_by_id_dom, ids_annotate, list_elem_of_fmap. split.
  - intros (r & -> & (mi & Hmi & Hjoin%menu__name_spec & ->)%menu_item_rows_elem).
    by exists mi.
  - intros (mi & Hmi & <- & Hjoin%menu__name_spec). exists (values mi).
    split; [done|]. apply menu_item_rows_elem. by exists mi.
Qed.

(** X14: [clean] accepts an item exactly when one and only one of its two URL
    fields is filled in and its parent, if it has one, is a stored item of
    the same menu. When the URL fields are both filled in or both empty it
    raises the first [ValidationError] without looking at the parent. *)
Theorem clean_spec t mi :
  (clean t mi = Cleaned ↔
   ((item_url mi = "" ∧ item_named_url mi ≠ "")
    ∨ (item_url mi ≠ "" ∧ item_named_url mi = ""))
   ∧ ∀ p, parent mi = Some p →
          ∃ par, find (λ x, pk x =? p) (menu_items t) = Some par
                 ∧ menu_id par = menu_id mi)
  ∧ ((item_url mi = "" ↔ item_named_url mi = "") →
     ∃ message, clean t mi = ValidationError message
                ∧ ∀ t', clean t' mi = ValidationError message).
Proof.
  unfold clean, get_parent.
  destruct (item_url mi) as [|c u], (item_named_url mi) as [|d n];
    cbn [truthy str_truthy Bool.eqb].
  - split; [|by eauto]. split; [done|]. by intros [[[_ ?]|[? _]] _].
  - split; [|intros [H _]; by specialize (H eq_refl)].
    destruct (parent mi) as [p|].
    + destruct (find _ _) as [par|] eqn:Hfind.
      * destruct (Z.eqb_spec (menu_id par) (menu_id mi)) as [Heq|Hne]; cbn [negb].
        -- split; [|done]. intros _. split; [by left|].
           intros p' [= <-]. exists par. by split.
        -- split; [done|]. intros [_ Hp].
           destruct (Hp p eq_refl) as (par' & Hpar' & ?). congruence.
      * split; [done|]. intros [_ Hp].
        destruct (Hp p eq_refl) as (? & ? & _). congruence.
    + split; [|done]. intros _. split; [by left|done].
  - split; [|intros [_ H]; by specialize (H eq_refl)].
    destruct (parent mi) as [p|].
    + destruct (find _ _) as [par|] eqn:Hfind.
      * destruct (Z.eqb_spec (menu_id par) (menu_id mi)) as [Heq|Hne]; cbn [negb].
        -- split; [|done]. intros _. split; [by right|].
           intros p' [= <-]. exists par. by split.
        -- split; [done|]. intros [_ Hp].
           destruct (Hp p eq_refl) as (par' & Hpar' & ?). congruence.
      * split; [done|]. intros [_ Hp].
        destruct (Hp p eq_refl) as (? & ? & _). congruence.
    + split; [|done]. intros _. split; [by right|done].
  - split; [|by eauto]. split; [done|]. by intros [[[? _]|[_ ?]] _].
Qed.

End store.

(** ** Validated menus *)

Section validated.

Variable reverse : string → option string.

(** A run that raises has raised in the climb from the active entry. *)
Lemma draw_menu_rows_raises_inv fuel request menu_name rows err :
  draw_menu_rows reverse fuel request menu_name rows = Raises err →
  ∃ a, find_active (_normalize_path (getattr_path request))
         (annotate reverse <$> rows) = Some a
       ∧ climb fuel (index_by_id (annotate reverse <$> rows)) (Some a) ∅
         = Raises err.
Proof.
  destruct (decide (rows = [])) as [-> |Hne]; [done|].
  destruct (root_items_returns reverse rows) as [vs Hvs].
  rewrite draw_menu_rows_unfold by done. cbv zeta.
  destruct (find_active _ _) as [a|]; [|by rewrite Hvs].
  destruct (truthy (Some a)); [|by rewrite Hvs].
  destruct (climb _ _ _ _) as [e|err'|] eqn:Hclimb; run_outcome;
    [by rewrite Hvs|intros [= ->]|done].
  by exists a.
Qed.

(** Where every parent is an entry, every id on a chain is one. *)
Lemma on_chain_is_Some (by_id : gmap Z item) a k :
  (∀ c (it : item) p, by_id !! c = Some it →
     when_truthy (parent_id it) = Some p → is_Some (by_id !! p)) →
  is_Some (by_id !! a) → on_chain by_id a k → is_Some (by_id !! k).
Proof.
  intros Hclosed Ha Hchain.
  induction Hchain as [a|a it p x Hit Hp _ IH]; [done|].
  apply IH. by eapply Hclosed.
Qed.

(** X15: in a store in which every item of the menu has passed [clean], the
    parent of every entry is an entry of the same menu, and [draw_menu] on
    that menu raises nothing. *)
Theorem validated_menu_never_raises fuel context menu_name c :
  (∀ mi, mi ∈ menu_items (data c) →
     menu__name (data c) menu_name mi = true → clean (data c) mi = Cleaned) →
  ∀ err, (draw_menu reverse fuel context menu_name c).1 ≠ Raises err.
Proof.
  intros Hclean err. rewrite draw_menu_unfold. cbn [fst].
  intros (a & Hactive & Hclimb)%draw_menu_rows_raises_inv.
  apply climb_raises in Hclimb as (a' & k & [[= <-] _]%when_truthy_inv & _ & Hchain & Hk).
  assert (is_Some (index_by_id
            (annotate reverse <$> menu_item_rows (data c) menu_name) !! a))
    as Ha.
  { apply find_active_is_item in Hactive as (it & Hit & <-).
    by apply index_by_id_is_Some. }
  enough (∀ c' (it : item) p,
            index_by_id (annotate reverse <$> menu_item_rows (data c) menu_name)
              !! c' = Some it →
            when_truthy (parent_id it) = Some p →
            is_Some (index_by_id
                       (annotate reverse <$> menu_item_rows (data c) menu_name)
                       !! p)) as Hclosed.
  { destruct (on_chain_is_Some _ _ _ Hclosed Ha Hchain) as [? ?]. congruence. }
  clear -Hclean. intros _ it p [_ Hit]%index_by_id_lookup [Hp _]%when_truthy_inv.
  apply list_elem_of_fmap in Hit as (r & -> & Hr). cbn [annotate fields] in Hp.
  apply menu_item_rows_elem in Hr as (mi & Hmi & Hjoin & ->).
  cbn [values parent_id] in Hp.
  specialize (Hclean mi Hmi Hjoin). unfold clean, get_parent in Hclean.
  destruct (Bool.eqb _ _); [done|]. rewrite Hp in Hclean.
  destruct (find _ _) as [par|] eqn:Hfind; [|done].
  destruct (Z.eqb_spec (menu_id par) (menu_id mi)) as [Hsame|]; [|done].
  apply find_some in Hfind as [Hpar%list_elem_of_In Hpk%Z.eqb_eq].
  apply index_by_id_dom. rewrite ids_annotate.
  apply list_elem_of_fmap. exists (values par). split; [done|].
  apply menu_item_rows_elem. exists par. split_and!; [done| |done].
  unfold menu__name in *. by rewrite Hsame.
Qed.

(** X16: an entry that has passed [clean] is resolved from exactly one of its
    two fields: from the named route, falling back to "#" when the route does
    not resolve, or, without a named route, from its raw URL, which is not
    empty. *)
Theorem validated_entry_resolved t mi :
  clean t mi = Cleaned →
  (item_named_url mi ≠ "" ∧ item_url mi = ""
   ∧ resolved_url (annotate reverse (values mi))
     = default "#" (reverse (item_named_url mi)))
  ∨ (item_named_url mi = "" ∧ item_url mi ≠ ""
     ∧ resolved_url (annotate reverse (values mi)) = item_url mi).
Proof.
  unfold clean. cbn [annotate resolved_url values named_url url].
  unfold _resolve_url.
  destruct (item_url mi) as [|c u], (item_named_url mi) as [|d n];
    cbn [truthy option_truthy str_truthy Bool.eqb default]; try done; intros _.
  - left. split_and!; [done|done|]. unfold Datatypes.id.
    by destruct (reverse (String d n)).
  - right. by split_and!.
Qed.

End validated.

(** ** More runs on the fixture *)

Lemma items_by_id_spec_witness :
  ∃ mc,
    draw_menu_rows Urls.reverse 6 (Some {| path := "/blog/" |}) "main_menu"
      Fixture.rows
    = Returns (render_to_string "tree_menu/menu.html" mc)
    ∧ is_Some (items_by_id mc !! 6).
Proof.
  eexists. split; [reflexivity|].
  edestruct (items_by_id_spec Urls.reverse 6 (Some {| path := "/blog/" |})
               "main_menu" Fixture.rows) as (Hkeys & _ & _); [reflexivity|].
  apply Hkeys. apply (bool_decide_unpack _). vm_compute. reflexivity.
Defined.

Lemma listed_ids_are_keys_witness :
  ∃ mc,
    draw_menu_rows Urls.reverse 6 (Some {| path := "/blog/" |}) "main_menu"
      Fixture.rows
    = Returns (render_to_string "tree_menu/menu.html" mc)
    ∧ ∃ it : item, get_item (a_dict (items_by_id mc)) 5 = Some it ∧ id it = 5.
Proof.
  eexists. split; [reflexivity|].
  edestruct (listed_ids_are_keys Urls.reverse 6 (Some {| path := "/blog/" |})
               "main_menu" Fixture.rows) as [_ Hkids]; [reflexivity|].
  apply (Hkids 2 [5] 5); [reflexivity|]. by left.
Defined.

Lemma expanded_ids_displayed_witness :
  ∃ mc,
    draw_menu_rows Urls.reverse 6 (Some {| path := "/blog/categories/1/" |})
      "main_menu" Fixture.rows
    = Returns (render_to_string "tree_menu/menu.html" mc)
    ∧ 6 ∈ expanded_ids mc.
Proof.
  eexists. split; [reflexivity|].
  edestruct (expanded_ids_displayed Urls.reverse 6
               (Some {| path := "/blog/categories/1/" |}) "main_menu"
               Fixture.rows) as [_ Hactive]; [reflexivity|].
  apply Hactive; [reflexivity|discriminate].
Defined.

Lemma draw_menu_rows_bounded_witness :
  ∃ r, draw_menu_rows Urls.reverse 6 (Some {| path := "/blog/" |}) "main_menu"
         Fixture.rows = Returns r.
Proof.
  destruct (draw_menu_rows_bounded Urls.reverse (Some {| path := "/blog/" |})
              "main_menu" Fixture.rows) as [r Hr].
  - apply parents_end_active, fixture_parents_end.
  - exists r. apply Hr. apply (bool_decide_unpack _). vm_compute. reflexivity.
Defined.

Lemma draw_menu_rows_out_of_fuel_witness :
  returned (draw_menu_rows Urls.reverse 5 (Some {| path := "/a/" |})
              "self_parent" [Fixture.plain 1 (Some 1) "/a/"]) = false.
Proof.
  apply (draw_menu_rows_out_of_fuel Urls.reverse (Some {| path := "/a/" |})
           "self_parent" [Fixture.plain 1 (Some 1) "/a/"]).
  reflexivity.
Defined.

Lemma draw_menu_rows_raises_witness :
  ∃ r, r ∈ [Fixture.plain 4 (Some 9) "/a/"]
       ∧ when_truthy (parent_id r) = Some 9.
Proof.
  destruct (draw_menu_rows_raises Urls.reverse 2 (Some {| path := "/a/" |})
              "stray_parent" [Fixture.plain 4 (Some 9) "/a/"] (KeyError 9))
    as (a & k & _ & _ & Herr & _ & _ & Hr); [reflexivity|].
  injection Herr as <-. exact Hr.
Defined.

Lemma draw_menu_rows_trapped_witness :
  draw_menu_rows Urls.reverse 100 (Some {| path := "/a/" |}) "self_parent"
    [Fixture.plain 1 (Some 1) "/a/"] = OutOfFuel.
Proof.
  apply (draw_menu_rows_trapped Urls.reverse (Some {| path := "/a/" |})
           "self_parent" [Fixture.plain 1 (Some 1) "/a/"] (λ c, c = 1) 1);
    [reflexivity|reflexivity|].
  intros c ->. split; [discriminate|].
  exists (annotate Urls.reverse (Fixture.plain 1 (Some 1) "/a/")), 1.
  repeat split; reflexivity.
Defined.

Lemma exact_match_wins_witness :
  ∃ it : item,
    find_active "/blog/" (annotate Urls.reverse <$> Fixture.rows) = Some (id it)
    ∧ norm_url it = "/blog/".
Proof.
  destruct (exact_match_wins Urls.reverse (Some {| path := "/blog" |})
              Fixture.rows (values Fixture.item_blog))
    as (l1 & it & l2 & _ & Hactive & Hnorm & _).
  - apply (bool_decide_unpack _). vm_compute. reflexivity.
  - reflexivity.
  - reflexivity.
  - exists it. split; [exact Hactive|exact Hnorm].
Defined.

Lemma root_entry_only_at_root_witness :
  ∃ it : item,
    it ∈ annotate Urls.reverse <$> Fixture.rows ∧ id it = 1
    ∧ (norm_url it = "/" ↔ "/" = "/").
Proof.
  apply (root_entry_only_at_root Urls.reverse (Some {| path := "/" |})
           Fixture.rows 1).
  reflexivity.
Defined.

Lemma untouched_never_active_witness :
  find_active "/blog/" (annotate Urls.reverse <$> Fixture.rows) ≠ Some 4.
Proof.
  apply (untouched_never_active Urls.reverse (Some {| path := "/blog/" |})
           Fixture.rows (values Fixture.item_ext)).
  - apply (bool_decide_unpack _). vm_compute. reflexivity.
  - apply (bool_decide_unpack _). vm_compute. reflexivity.
  - reflexivity.
Defined.

Lemma normalize_path_slashes_witness :
  _normalize_path "/blog" = _normalize_path "blog"
  ∧ _normalize_path "blog/" = _normalize_path "blog".
Proof.
  destruct (normalize_path_slashes "blog") as [Hlead Htrail];
    [discriminate|reflexivity|].
  split; [apply Hlead|apply Htrail]; reflexivity.
Defined.

Lemma draw_menu_isolation_witness :
  ∃ mc,
    (draw_menu Urls.reverse 6 (Fixture.get "/") "main_menu" Fixture.conn).1
    = Returns (render_to_string "tree_menu/menu.html" mc)
    ∧ is_Some (get_item (a_dict (items_by_id mc)) 1).
Proof.
  eexists. split; [reflexivity|].
  eapply (draw_menu_isolation Urls.reverse 6 (Fixture.get "/") "main_menu"
            Fixture.conn); [reflexivity|].
  exists Fixture.item_home. split; [by left|]. split; [reflexivity|].
  exists Fixture.main_menu. split; [by left|]. split; reflexivity.
Defined.

Lemma validated_menu_never_raises_witness :
  (draw_menu Urls.reverse 6 (Fixture.get "/blog/") "main_menu" Fixture.conn).1
  ≠ Raises (KeyError 2).
Proof.
  apply (validated_menu_never_raises Urls.reverse 6 (Fixture.get "/blog/")
           "main_menu" Fixture.conn).
  intros mi Hmi _. revert mi Hmi.
  apply (Forall_forall (λ mi, clean Fixture.db mi = Cleaned)).
  repeat constructor.
Defined.

Lemma validated_entry_resolved_witness :
  (item_named_url Fixture.item_home ≠ "" ∧ item_url Fixture.item_home = ""
   ∧ resolved_url (annotate Urls.reverse (values Fixture.item_home))
     = default "#" (Urls.reverse (item_named_url Fixture.item_home)))
  ∨ (item_named_url Fixture.item_home = "" ∧ item_url Fixture.item_home ≠ ""
     ∧ resolved_url (annotate Urls.reverse (values Fixture.item_home))
       = item_url Fixture.item_home).
Proof.
  apply (validated_entry_resolved Urls.reverse Fixture.db Fixture.item_home).
  reflexivity.
Defined.

(** * The claims on the view model of [draw_menu] *)

(** ** The words of the specification and the loop of the code *)

Section parents_in_words.

Implicit Types (by_id : gmap Z item).

Lemma ends_at_root_key by_id a : ends_at_root by_id a → is_Some (by_id !! a).
Proof. destruct 1; by eexists. Qed.

(** A chain that ends at its root in the words of the specification ends for
    the loop as well, which stops there or, at an id 0, before. *)
Lemma ends_at_root_reaches by_id a :
  ends_at_root by_id a → reaches_root by_id (Some a).
Proof.
  induction 1 as [a it Hit Hp|a it p Hit Hp _ IH];
    (destruct (decide (a = 0)) as [-> |Hnz]; [by apply reaches_root_here|]);
    (eapply reaches_root_up; [by apply when_truthy_nonzero|done|]);
    rewrite Hp; [by apply reaches_root_here|done].
Qed.

(** What the loop walks through is an ancestor in the words of the
    specification. *)
Lemma on_chain_ancestor by_id a x :
  on_chain by_id a x → ancestor_or_self by_id a x.
Proof.
  induction 1 as [a|a it p x Hit [Hp _]%when_truthy_inv _ IH]; [constructor|].
  by econstructor.
Qed.

(** With no id 0 among the keys, the loop walks through every ancestor of an
    entry whose chain ends at its root. *)
Lemma ancestor_on_chain by_id a x :
  (∀ k, is_Some (by_id !! k) → k ≠ 0) →
  ends_at_root by_id a → ancestor_or_self by_id a x → on_chain by_id a x.
Proof.
  intros Hkeys Hends Hanc.
  induction Hanc as [a|a it p x Hit Hp _ IH]; [constructor|].
  destruct Hends as [a it' Hit' Hp'|a it' p' Hit' Hp' Hends'];
    rewrite Hit in Hit'; injection Hit' as <-; rewrite Hp in Hp'; [done|].
  injection Hp' as <-.
  apply (on_chain_up _ a it p x); [done| |by apply IH].
  rewrite Hp. apply when_truthy_nonzero, Hkeys. by eapply ends_at_root_key.
Qed.

End parents_in_words.

(** ** The three claims *)

Section view_model_claims.

Variable reverse : string → option string.

Implicit Types (it x : item).

(** The chain of the selected entry ends for the loop when it ends in the
    words of the specification. *)
Lemma active_ends_reaches cur (items : list item) :
  (∀ a, find_active cur items = Some a → ends_at_root (index_by_id items) a) →
  reaches_root (index_by_id items) (find_active cur items).
Proof.
  intros Hends. destruct (find_active cur items) as [a|].
  - by apply ends_at_root_reaches, Hends.
  - by apply reaches_root_here.
Qed.

(** On a list that is not empty, with the chain of the selected entry ending,
    as many iterations as there are rows let [draw_menu] hand a context to
    the template; the context carries the selected id and the set the climb
    has returned. *)
Lemma draw_menu_rows_total fuel request menu_name rows :
  let items := annotate reverse <$> rows in
  let active := find_active (_normalize_path (getattr_path request)) items in
  rows ≠ [] →
  reaches_root (index_by_id items) active →
  (length rows ≤ fuel)%nat →
  ∃ mc,
    draw_menu_rows reverse fuel request menu_name rows
    = Returns (render_to_string "tree_menu/menu.html" mc)
    ∧ active_id mc = active
    ∧ (if truthy active then climb fuel (index_by_id items) active ∅
       else Returns (∅ : gset Z)) = Returns (expanded_ids mc).
Proof.
  cbv zeta. intros Hne Hends Hfuel.
  destruct (climb_enough _ _ fuel ∅ Hends) as [e He].
  { by rewrite length_fmap. }
  destruct (draw_menu_rows_after_climb reverse fuel request menu_name rows
              (if truthy (find_active (_normalize_path (getattr_path request))
                            (annotate reverse <$> rows)) then e else ∅) Hne)
    as (mc & Hrun & _).
  { by destruct (truthy _). }
  exists mc. split; [done|].
  by destruct (draw_menu_rows_inv reverse _ _ _ _ _ _ Hrun)
    as (_ & _ & _ & _ & _ & _ & ? & ? & _).
Qed.

(** C1: [draw_menu] takes the early return on the empty list only; every
    context it hands to the template carries the id that the scan of the
    entries selects; it fails to return only in the climb from a selected id
    other than 0; and on a list that is not empty it does hand over a context
    with the selected id, within as many iterations as there are rows,
    whenever that climb ends. The selected id is as follows. If some entry
    matches (its normalized URL is an absolute path and a prefix of the
    normalized current path, the bare root "/" matching only the current path
    "/"), it is the id of a matching entry with the longest normalized URL,
    every matching entry before it in the list is strictly shorter, and, the
    rows being in ascending (sort key, id) order as the query delivers them,
    every matching entry with the same normalized URL comes at or after it in
    that order. If no entry matches, no active id is selected. Two matching
    entries can only tie in length by having the same normalized URL. *)
Theorem active_id_spec request menu_name rows :
  let cur := _normalize_path (getattr_path request) in
  let items := annotate reverse <$> rows in
  (∀ fuel,
     match draw_menu_rows reverse fuel request menu_name rows with
     | Returns Blank => rows = []
     | Returns (render_to_string t mc) =>
         rows ≠ [] ∧ active_id mc = find_active cur items
     | Raises _ | OutOfFuel => ∃ a, find_active cur items = Some a ∧ a ≠ 0
     end)
  ∧ (rows ≠ [] →
     reaches_root (index_by_id items) (find_active cur items) →
     ∀ fuel, (length rows ≤ fuel)%nat →
       ∃ mc,
         draw_menu_rows reverse fuel request menu_name rows
         = Returns (render_to_string "tree_menu/menu.html" mc)
         ∧ active_id mc = find_active cur items)
  ∧ match find_active cur items with
    | Some a =>
        ∃ l1 it l2,
          items = l1 ++ it :: l2 ∧ id it = a ∧ candidate cur it
          ∧ (∀ x, x ∈ l1 → candidate cur x →
               (len (norm_url x) < len (norm_url it))%nat)
          ∧ (∀ x, x ∈ items → candidate cur x →
               (len (norm_url x) ≤ len (norm_url it))%nat)
          ∧ (Sorted key_le rows →
             ∀ x, x ∈ items → candidate cur x →
               norm_url x = norm_url it → key_le it x)
    | None => ∀ it, it ∈ items → ¬ candidate cur it
    end
  ∧ (∀ x y, candidate cur x → candidate cur y →
       len (norm_url x) = len (norm_url y) → norm_url x = norm_url y).
Proof.
  intros cur items. split_and!.
  - intros fuel. subst cur items.
    destruct (decide (rows = [])) as [-> |Hne]; [done|].
    destruct (root_items_returns reverse rows) as [vs Hvs].
    rewrite draw_menu_rows_unfold by done. cbv zeta.
    destruct (find_active _ _) as [a|]; [|by rewrite Hvs].
    destruct (truthy (Some a)) eqn:Htruthy; [|by rewrite Hvs].
    destruct (climb _ _ _ _) as [e|err|]; run_outcome;
      [by rewrite Hvs|exists a..]; (split; [done|by intros ->]).
  - intros Hne Hends fuel Hfuel.
    destruct (draw_menu_rows_total fuel request menu_name rows Hne Hends Hfuel)
      as (mc & Hrun & Hactive & _).
    by exists mc.
  - pose proof (scan_fold cur items) as Hscan. unfold find_active.
    destruct (foldl (scan cur) (None, 0%nat) items) as [[a|] m]; cbn [fst].
    2: { by destruct Hscan. }
    destruct Hscan as (l1 & it & l2 & Hitems & Hid & _ & Hit & Hl1 & Hl2).
    exists l1, it, l2. split_and!; try done.
    + intros x Hx Hc. rewrite Hitems in Hx.
      apply elem_of_app in Hx as [Hx|[-> |Hx]%elem_of_cons]; [|done|by apply Hl2].
      specialize (Hl1 x Hx Hc). lia.
    + intros Hsorted x Hx Hc Hsame. rewrite Hitems in Hx.
      apply elem_of_app in Hx as [Hx|[-> |Hx]%elem_of_cons].
      * specialize (Hl1 x Hx Hc). rewrite Hsame in Hl1. lia.
      * unfold key_le. lia.
      * apply (Sorted_StronglySorted key_le) in Hsorted.
        rewrite <-(fields_annotate reverse rows) in Hsorted.
        fold items in Hsorted.
        rewrite Hitems, fmap_app, fmap_cons in Hsorted.
        apply StronglySorted_app_1_r, StronglySorted_cons in Hsorted as [Hle _].
        eapply Forall_forall in Hle; [done|]. by apply list_elem_of_fmap_2.
  - apply candidate_tie.
Qed.

(** C3, as the code has it: on a list with pairwise distinct ids, when the
    parent chain of the entry that the scan selects as active stays inside
    the list and ends at its root (the selected id is the id of an entry,
    every [parent_id] on the way up is the id of an entry, and the way
    arrives at an entry whose [parent_id] is [None]), [draw_menu] returns
    within as many iterations of the loop as there are rows, whatever the
    other fields of the entries hold: by the early return of line 74 when the
    list is empty, by handing a context to the template otherwise. The ids
    being distinct, an id names one entry, the one [by_id] holds. *)
Theorem draw_menu_rows_returns request menu_name rows :
  let cur := _normalize_path (getattr_path request) in
  let items := annotate reverse <$> rows in
  NoDup (id <$> rows) →
  (∀ a, find_active cur items = Some a → ends_at_root (index_by_id items) a) →
  ∀ fuel, (length rows ≤ fuel)%nat →
    ∃ r, draw_menu_rows reverse fuel request menu_name rows = Returns r
         ∧ match r with
           | Blank => rows = []
           | render_to_string t mc => rows ≠ [] ∧ t = "tree_menu/menu.html"
           end.
Proof.
  cbv zeta. intros _ Hends%active_ends_reaches fuel Hfuel.
  destruct (decide (rows = [])) as [-> |Hne]; [by exists Blank|].
  destruct (draw_menu_rows_total fuel request menu_name rows Hne Hends Hfuel)
    as (mc & Hrun & _).
  eexists. split; [done|]. by split.
Qed.

(** C2, as the code has it: on a list that is not empty and whose ids are
    pairwise distinct and other than 0, when the parent chain of the entry
    that the scan selects as active stays inside the list and ends at its
    root, [draw_menu] hands to the template, within as many iterations of the
    loop as there are rows, a context whose expanded set holds exactly the
    active id and its ancestors if there is an active id, and is empty if
    there is none. The ids being distinct, an id names one entry, the one
    [by_id] holds. *)
Theorem expanded_ids_spec request menu_name rows :
  let cur := _normalize_path (getattr_path request) in
  let items := annotate reverse <$> rows in
  rows ≠ [] →
  NoDup (id <$> rows) →
  Forall (λ r, id r ≠ 0) rows →
  (∀ a, find_active cur items = Some a → ends_at_root (index_by_id items) a) →
  ∀ fuel, (length rows ≤ fuel)%nat →
    ∃ mc,
      draw_menu_rows reverse fuel request menu_name rows
      = Returns (render_to_string "tree_menu/menu.html" mc)
      ∧ match active_id mc with
        | Some a =>
            ∀ k : Z,
              k ∈ expanded_ids mc ↔ ancestor_or_self (index_by_id items) a k
        | None => expanded_ids mc = ∅
        end.
Proof.
  cbv zeta. intros Hne _ Hids Hends fuel Hfuel.
  destruct (draw_menu_rows_total fuel request menu_name rows Hne
              (active_ends_reaches _ _ Hends) Hfuel)
    as (mc & Hrun & Hactive & Hclimb).
  exists mc. split; [done|]. rewrite Hactive.
  assert (∀ k, is_Some (index_by_id (annotate reverse <$> rows) !! k) → k ≠ 0)
    as Hkeys.
  { intros k Hk ->. apply index_by_id_dom in Hk. rewrite ids_annotate in Hk.
    apply list_elem_of_fmap in Hk as (r & Hr0 & Hr).
    by eapply Forall_forall in Hids. }
  destruct (find_active _ _) as [a|] eqn:Hsel; [|by injection Hclimb].
  specialize (Hends a eq_refl).
  assert (a ≠ 0) as Hnz by by apply Hkeys, ends_at_root_key.
  replace (truthy (Some a)) with true in Hclimb.
  2: { cbn. unfold truthy, int_truthy. by destruct (Z.eqb_spec a 0). }
  intros k.
  rewrite (climb_collects _ _ _ _ _ Hclimb k), (when_truthy_nonzero a Hnz).
  split.
  - intros [?%elem_of_empty|(c & [= <-] & ?)]; [done|]. by apply on_chain_ancestor.
  - intros Hanc. right. exists a. split; [done|]. by apply ancestor_on_chain.
Qed.

End view_model_claims.

(** ** The children dict, key by key *)

Section children_dict.

Variable reverse : string → option string.

(** Under a key other than 0 the loop of lines 84-87 files the rows that have
    the key as [parent_id]; under the key 0 it files none. *)
Lemma child_rows_nonzero (rows : list row) (p : Z) :
  p ≠ 0 →
  filter (is_child_of p) rows = filter (λ r, parent_id r = Some p) rows.
Proof.
  intros Hp. apply list_filter_iff. intros r. unfold is_child_of. split.
  - by intros [? _]%when_truthy_inv.
  - intros ->. by apply when_truthy_nonzero.
Qed.

Lemma child_rows_zero (rows : list row) : filter (is_child_of 0) rows = [].
Proof.
  induction rows as [|r rows IH]; [done|].
  rewrite filter_cons_False; [done|]. by intros [_ ?]%when_truthy_inv.
Qed.

(** X2: what [get_item] answers on the children dict of the view model. Under
    a key other than 0: the ids, in delivered order, of the rows whose
    [parent_id] is the key, when there are such rows, and [None] when there
    are none. Under the key 0: [None], also when rows have the [parent_id] 0,
    which the loop files as roots. A list it answers is never empty. On a
    value that is no dict it answers [None]. *)
Theorem get_item_children fuel request menu_name rows t mc p :
  draw_menu_rows reverse fuel request menu_name rows
  = Returns (render_to_string t mc) →
  (p ≠ 0 →
   get_item (a_dict (children_map mc)) p
   = match filter (λ r, parent_id r = Some p) rows with
     | [] => None
     | kids => Some (id <$> kids)
     end)
  ∧ get_item (a_dict (children_map mc)) 0 = None
  ∧ (∀ l, get_item (a_dict (children_map mc)) p = Some l → l ≠ [])
  ∧ get_item (@not_a_dict (list Z)) p = None.
Proof.
  intros (_ & _ & _ & _ & _ & -> & _)%draw_menu_rows_inv.
  cbn [get_item]. rewrite !assemble_children_lookup, child_rows_zero.
  split_and!; [|done| |done].
  - intros Hp. by rewrite child_rows_nonzero.
  - intros l. by destruct (filter (is_child_of p) rows); intros [= <-].
Qed.

End children_dict.

(** ** Runs of the claims *)

Lemma fixture_sorted : Sorted key_le Fixture.rows.
Proof. apply (bool_decide_unpack _). vm_compute. reflexivity. Defined.

Lemma fixture_ids : NoDup (id <$> Fixture.rows).
Proof. apply (bool_decide_unpack _). vm_compute. reflexivity. Defined.

Lemma fixture_length : (length Fixture.rows ≤ 6)%nat.
Proof. apply (bool_decide_unpack _). vm_compute. reflexivity. Defined.

Lemma active_id_spec_witness :
  ∃ mc (it : item),
    draw_menu_rows Urls.reverse 6 (Some {| path := "/blog/categories/1/" |})
      "main_menu" Fixture.rows
    = Returns (render_to_string "tree_menu/menu.html" mc)
    ∧ active_id mc = Some 6
    ∧ it ∈ annotate Urls.reverse <$> Fixture.rows
    ∧ id it = 6
    ∧ candidate "/blog/categories/1/" it
    ∧ ∀ x : item, x ∈ annotate Urls.reverse <$> Fixture.rows →
        candidate "/blog/categories/1/" x →
        norm_url x = norm_url it → key_le it x.
Proof.
  destruct (active_id_spec Urls.reverse
              (Some {| path := "/blog/categories/1/" |}) "main_menu"
              Fixture.rows) as (_ & Hrun & Hsel & _).
  cbv zeta in Hrun, Hsel.
  destruct (Hrun ltac:(discriminate)
              (parents_end_active _ _ fixture_parents_end) 6%nat fixture_length)
    as (mc & Hmc & Hactive).
  change (find_active _ _) with (Some 6) in Hsel, Hactive.
  destruct Hsel as (l1 & it & l2 & Hitems & Hid & Hc & _ & _ & Hfirst).
  exists mc, it. split_and!; [done|done| |done|done|exact (Hfirst fixture_sorted)].
  rewrite Hitems. apply elem_of_app. right. by left.
Defined.

Lemma draw_menu_rows_returns_witness :
  ∃ r,
    draw_menu_rows Urls.reverse 6 (Some {| path := "/blog/" |}) "main_menu"
      Fixture.rows = Returns r
    ∧ match r with
      | Blank => Fixture.rows = []
      | render_to_string t mc => Fixture.rows ≠ [] ∧ t = "tree_menu/menu.html"
      end.
Proof.
  apply (draw_menu_rows_returns Urls.reverse (Some {| path := "/blog/" |})
           "main_menu" Fixture.rows); [exact fixture_ids| |exact fixture_length].
  intros a Ha. change (find_active _ _) with (Some 2) in Ha. injection Ha as <-.
  eapply ends_at_root_here; reflexivity.
Defined.

Lemma expanded_ids_spec_witness :
  ∃ mc,
    draw_menu_rows Urls.reverse 6 (Some {| path := "/blog/categories/1/" |})
      "main_menu" Fixture.rows
    = Returns (render_to_string "tree_menu/menu.html" mc)
    ∧ active_id mc = Some 6
    ∧ ∀ k : Z,
        k ∈ expanded_ids mc
        ↔ ancestor_or_self
            (index_by_id (annotate Urls.reverse <$> Fixture.rows)) 6 k.
Proof.
  destruct (expanded_ids_spec Urls.reverse
              (Some {| path := "/blog/categories/1/" |}) "main_menu"
              Fixture.rows) with (fuel := 6%nat) as (mc & Hrun & Hexp).
  - discriminate.
  - exact fixture_ids.
  - apply (bool_decide_unpack _). vm_compute. reflexivity.
  - intros a Ha. change (find_active _ _) with (Some 6) in Ha.
    injection Ha as <-.
    eapply ends_at_root_up; [reflexivity|reflexivity|].
    eapply ends_at_root_up; [reflexivity|reflexivity|].
    eapply ends_at_root_here; reflexivity.
  - exact fixture_length.
  - destruct (draw_menu_rows_inv _ _ _ _ _ _ _ Hrun)
      as (_ & _ & _ & _ & _ & _ & Hactive & _).
    cbv zeta in Hactive. change (find_active _ _) with (Some 6) in Hactive.
    rewrite Hactive in Hexp. by exists mc.
Defined.

Lemma get_item_children_witness :
  ∃ mc,
    draw_menu_rows Urls.reverse 6 (Some {| path := "/blog/" |}) "main_menu"
      Fixture.rows
    = Returns (render_to_string "tree_menu/menu.html" mc)
    ∧ get_item (a_dict (children_map mc)) 2 = Some [5]
    ∧ get_item (a_dict (children_map mc)) 6 = None.
Proof.
  eexists. split; [reflexivity|].
  split.
  - edestruct (λ t mc, get_item_children Urls.reverse 6
                          (Some {| path := "/blog/" |}) "main_menu"
                          Fixture.rows t mc 2) as (H & _); [reflexivity|].
    exact (H ltac:(discriminate)).
  - edestruct (λ t mc, get_item_children Urls.reverse 6
                          (Some {| path := "/blog/" |}) "main_menu"
                          Fixture.rows t mc 6) as (H & _); [reflexivity|].
    exact (H ltac:(discriminate)).
Defined.

(** An entry with id 0 that matches the current path: it is the active entry
    and the expanded set does not hold it. An entry whose parent is the entry
    with id 0: it is the active entry and the expanded set does not hold its
    parent. Two entries that are each other's parent, one of them matching:
    no expanded set is ever produced. *)
Lemma expanded_ids_fails :
  (∃ mc,
     (draw_menu Urls.reverse 1 (Fixture.get "/a/") "zero_id"
        Fixture.odd_conn).1
     = Returns (render_to_string "tree_menu/menu.html" mc)
     ∧ active_id mc = Some 0 ∧ 0 ∉ expanded_ids mc)
  ∧ (∃ mc (it : item),
       (draw_menu Urls.reverse 2 (Fixture.get "/z/c/") "zero_parent"
          Fixture.zero_parent_conn).1
       = Returns (render_to_string "tree_menu/menu.html" mc)
       ∧ active_id mc = Some 20
       ∧ items_by_id mc !! 20 = Some it ∧ parent_id it = Some 0
       ∧ is_Some (items_by_id mc !! 0)
       ∧ 0 ∉ expanded_ids mc)
  ∧ (¬ ∃ fuel r,
         (draw_menu Urls.reverse fuel (Fixture.get "/a/") "two_cycle"
            Fixture.odd_conn).1 = Returns r).
Proof.
  split_and!.
  { eexists. split; [reflexivity|]. split; [reflexivity|]. apply not_elem_of_empty. }
  { eexists _, _. split; [reflexivity|]. split; [reflexivity|].
    split; [reflexivity|]. split; [reflexivity|]. split; [by eexists|].
    apply (bool_decide_unpack _). vm_compute. reflexivity. }
  intros (fuel & r & Hrun). rewrite draw_menu_unfold in Hrun.
  cbn [fst Fixture.odd_conn data] in Hrun.
  rewrite (proj1 (proj2 odd_rows)) in Hrun.
  rewrite draw_menu_rows_unfold in Hrun by done. cbv zeta in Hrun.
  change (find_active _ _) with (Some 2) in Hrun.
  change (truthy (Some 2)) with true in Hrun. cbv iota in Hrun.
  rewrite (climb_trapped _ (λ c, c = 2 ∨ c = 3)) in Hrun; [done| |by left].
  intros c [-> | ->]; (split; [done|]).
  - exists (annotate Urls.reverse (Fixture.plain 2 (Some 3) "/a/")), 3.
    split_and!; [done|done|by right].
  - exists (annotate Urls.reverse (Fixture.plain 3 (Some 2) "/b/")), 2.
    split_and!; [done|done|by left].
Qed.
